(** * wl-snippets: the fuzzy matcher, the filter view and the selection
      life cycle of [wl-snippets.py], embedded and verified.

    Python [str] values are modelled by [string]; an [ascii] stands for one
    character.  [str.lower] is a parameter of the development (Sections
    [Matcher] and [Session]): nothing but [lower "" = ""] is ever used about it, so the
    results hold for Python's Unicode lower-casing as well as for the ASCII
    instance [ascii_lower] used in the worked examples. *)

From Stdlib Require Import List Arith Bool Lia String Ascii ZArith.
From Stdlib Require Import Permutation Sorted DecimalString.
Import ListNotations.
Open Scope list_scope.
Open Scope string_scope.

(** ** Strings as Python uses them *)

(** [len(s)] is [String.length s]; [s[i]] for [i < len(s)] is
    [String.get i s]. *)

Definition option_ascii_eqb (a b : option ascii) : bool :=
  match a, b with
  | Some x, Some y => Ascii.eqb x y
  | _, _ => false
  end.

(** [needle in hay] on strings: some suffix of [hay] starts with [needle]. *)
Fixpoint str_in (needle hay : string) : bool :=
  if String.prefix needle hay then true
  else match hay with
       | EmptyString => false
       | String _ rest => str_in needle rest
       end.

(** [f"{n}"] for a non-negative integer. *)
Definition str_of_nat (n : nat) : string :=
  NilZero.string_of_uint (Nat.to_uint n).

(** ASCII instance of [str.lower]: [A]..[Z] go to [a]..[z]. *)
Definition ascii_lower_char (c : ascii) : ascii :=
  let n := nat_of_ascii c in
  if ((65 <=? n) && (n <=? 90))%nat then ascii_of_nat (n + 32) else c.

Fixpoint ascii_lower (s : string) : string :=
  match s with
  | EmptyString => EmptyString
  | String c rest => String (ascii_lower_char c) (ascii_lower rest)
  end.

(** ** Specification-side notions for the matcher *)

(** [needle] occurs in [hay] as a contiguous block. *)
Definition is_substring (needle hay : string) : Prop :=
  exists before after, hay = before ++ needle ++ after.

(** [q] is obtained from [n] by deleting characters. *)
Inductive is_subsequence : string -> string -> Prop :=
| subseq_nil : forall n, is_subsequence "" n
| subseq_take : forall c q n,
    is_subsequence q n -> is_subsequence (String c q) (String c n)
| subseq_skip : forall c q n,
    is_subsequence q n -> is_subsequence q (String c n).

(** The suffix [s[i:]]. *)
Fixpoint str_drop (i : nat) (s : string) : string :=
  match i, s with
  | 0, _ => s
  | S _, EmptyString => EmptyString
  | S i', String _ rest => str_drop i' rest
  end.

(** ** The fuzzy matcher, [filter_function] (lines 133-152) *)

(** The [while] loop of lines 147-151.  [rest] is [snippet_name[j:]]: the
    loop runs while [i < len(search_text)] and [rest] is not exhausted,
    compares [search_text[i]] with [snippet_name[j]] (the head of [rest]),
    advances [i] on a hit and [j] always.  The value is the final [i]. *)
Fixpoint fuzzy_scan (search_text : string) (i : nat) (rest : string) : nat :=
  match rest with
  | EmptyString => i
  | String c rest' =>
      if (i <? String.length search_text)%nat then
        fuzzy_scan search_text
          (if option_ascii_eqb (String.get i search_text) (Some c)
           then i + 1 else i)
          rest'
      else i
  end.

Section Matcher.

Variable lower : string -> string.

(** [text] is [self.search_entry.get_text()], [name] is
    [model[iterator][1]]. *)
Definition filter_function (text name : string) : bool :=
  let search_text := lower text in
  if String.eqb search_text "" then true
  else
    let snippet_name := lower name in
    if str_in search_text snippet_name then true
    else (fuzzy_scan search_text 0 snippet_name
          =? String.length search_text)%nat.

End Matcher.

(** ** Candidate store: the file tree and [load_snippets] (lines 118-131) *)

(** A row of [self.list_store], [Gtk.ListStore(str, str)  # Path, Name]. *)
Record Candidate := mkCandidate { fullPath : string; displayName : string }.

(** The part of the file system below the snippets directory.  The entries
    of a directory are kept in the order in which the operating system lists
    them ([os.scandir]), which is the order [os.walk] sees. *)
#[warnings="-register-all"]
Inductive fsnode :=
| File (name : string)
| Dir (name : string) (entries : list fsnode).

(** Paths are sequences of components: [os.path.join] appends a component,
    and [os.path.relpath p start] drops the components [p] shares with
    [start] and climbs with [".."] out of what is left of [start]. *)
Definition path := list string.

Definition path_join (root : path) (name : string) : path :=
  (root ++ [name])%list.

Fixpoint relpath (p start : path) : path :=
  match p, start with
  | c :: p', d :: start' =>
      if String.eqb c d then relpath p' start'
      else (map (fun _ => "..") start ++ p)%list
  | _, [] => p
  | [], _ => map (fun _ => "..") start
  end.

Definition path_str (p : path) : string := String.concat "/" p.

Definition dirnames (entries : list fsnode) : list string :=
  flat_map (fun e => match e with Dir n _ => [n] | File _ => [] end) entries.

Definition filenames (entries : list fsnode) : list string :=
  flat_map (fun e => match e with File n => [n] | Dir _ _ => [] end) entries.

(** [os.walk(top)], top-down and without following links: the triple of the
    directory itself, then the walks of its sub-directories in listing
    order.  Walking something that is not a directory yields nothing. *)
Fixpoint walk (top : path) (d : fsnode) : list (path * list string * list string) :=
  match d with
  | File _ => []
  | Dir _ entries =>
      (top, dirnames entries, filenames entries)
      :: flat_map (fun e => match e with
                            | Dir n _ => walk (path_join top n) e
                            | File _ => []
                            end) entries
  end.

(** [sorted(files)]: a stable sort by code-point order. *)
Fixpoint insert_sorted (x : string) (l : list string) : list string :=
  match l with
  | [] => [x]
  | y :: l' => if String.leb x y then x :: l else y :: insert_sorted x l'
  end.

Definition sorted (l : list string) : list string :=
  fold_right insert_sorted [] l.

(** What a handler does to the outside: status-bar pushes, timers, file and
    process operations, the highlight style. *)
Inductive callback := Destroy | RemoveStyle.

Inductive effect :=
| StatusPush (msg : string)
| TimeoutAdd (ms : nat) (cb : callback)
| OpenRead (file : string)
| Popen (argv : list string)
| Communicate (argv : list string) (input : string)
| AddStyle
| DropStyle
| QueueDraw
| MainQuit.

(** The body of the inner [for] loop, lines 125-128. *)
Definition load_file (snippets_dir root : path)
    (acc : list Candidate * nat) (file : string) : list Candidate * nat :=
  let full_path := path_join root file in
  let relative_path := relpath full_path snippets_dir in
  ((fst acc ++ [mkCandidate (path_str full_path) (path_str relative_path)])%list,
   snd acc + 1).

(** The rows appended to the cleared list store, and the status pushed. *)
Definition load_snippets (snippets_dir : path) (tree : fsnode)
    : list Candidate * effect :=
  let '(list_store, snippet_count) :=
    fold_left
      (fun acc '(root, _, files) =>
         fold_left (load_file snippets_dir root) (sorted files) acc)
      (walk snippets_dir tree) ([], 0) in
  (list_store, StatusPush ("Loaded " ++ str_of_nat snippet_count ++ " snippets")).

(** Specification side: the files of a tree, each with its path. *)
Fixpoint files_below (top : path) (d : fsnode) : list path :=
  match d with
  | File _ => []
  | Dir _ entries =>
      flat_map (fun e => match e with
                         | File n => [path_join top n]
                         | Dir n _ => files_below (path_join top n) e
                         end) entries
  end.

(** Specification side: the order of the loaded rows, as paths below the
    snippets directory: a directory contributes its own files, sorted, and
    then its sub-directories one after the other in listing order. *)
Fixpoint load_order (rel : path) (d : fsnode) : list path :=
  match d with
  | File _ => []
  | Dir _ entries =>
      (map (path_join rel) (sorted (filenames entries))
       ++ flat_map (fun e => match e with
                             | Dir n _ => load_order (path_join rel n) e
                             | File _ => []
                             end) entries)%list
  end.

(** The row [load_file] appends for the file at [rel] below [top]. *)
Definition row_of (top rel : path) : Candidate :=
  mkCandidate (path_str (top ++ rel)%list) (path_str rel).

(** The rows one [os.walk] triple contributes (lines 124-128). *)
Definition rows_of_triple (snippets_dir : path)
    (t : path * list string * list string) : list Candidate :=
  let '(root, _, files) := t in
  map (fun file =>
         mkCandidate (path_str (path_join root file))
                     (path_str (relpath (path_join root file) snippets_dir)))
      (sorted files).

(** ** The window state *)

(** [selection] names the selected row of the list store, if any (GTK's
    tree selection follows the row, not its position in the filtered
    view); [filter_store] lists the rows the filter shows, in view order. *)
Record State := mkState {
  list_store : list Candidate;
  search_entry : string;
  filter_store : list nat;
  selection : option nat;
  destroyed : bool
}.

Definition with_text (text : string) (s : State) : State :=
  mkState (list_store s) text (filter_store s) (selection s) (destroyed s).

Definition with_selection (sel : option nat) (s : State) : State :=
  mkState (list_store s) (search_entry s) (filter_store s) sel (destroyed s).

Definition destroy (s : State) : State :=
  mkState (list_store s) (search_entry s) (filter_store s) (selection s) true.

(** [self.selection.get_selected()] followed by [model[treeiter]]. *)
Definition get_selected (s : State) : option Candidate :=
  match selection s with
  | Some row => nth_error (list_store s) row
  | None => None
  end.

Definition option_nat_eqb (a b : option nat) : bool :=
  match a, b with
  | Some x, Some y => Nat.eqb x y
  | None, None => true
  | _, _ => false
  end.

(** [on_selection_changed], lines 171-175. *)
Definition on_selection_changed (s : State) : list effect :=
  match get_selected s with
  | Some c => [StatusPush ("Selected: " ++ displayName c)]
  | None => []
  end.

(** [self.tree_view.set_cursor(path)]: the row at position [pos] of the
    view becomes the selection; the selection's [changed] signal runs
    [on_selection_changed] when the selection is another one than before. *)
Definition set_cursor (pos : nat) (s : State) : State * list effect :=
  let s' := with_selection (nth_error (filter_store s) pos) s in
  (s', if option_nat_eqb (selection s) (selection s') then []
       else on_selection_changed s').

(** ** Exceptions and the outside world *)

Inductive exn :=
| FileNotFoundError (msg : string)
| OtherError (msg : string).

(** [str(e)]. *)
Definition exn_str (e : exn) : string :=
  match e with FileNotFoundError m => m | OtherError m => m end.

(** A child process as [communicate] leaves it: whether it took the bytes
    written to its standard input, and its exit status.  [communicate]
    itself swallows a broken pipe and returns after the child has exited. *)
Record process := mkProcess { stdin_accepted : bool; returncode : Z }.

Record World := mkWorld {
  file_content : string -> exn + string;
  spawn : list string -> exn + process
}.

(** Computations that push effects and may raise. *)
Definition M (A : Type) : Type := (list effect * (exn + A))%type.

Definition ret {A} (a : A) : M A := ([], inr a).
Definition raise {A} (e : exn) : M A := ([], inl e).
Definition emit (x : effect) : M unit := ([x], inr tt).

Definition bind {A B} (m : M A) (k : A -> M B) : M B :=
  match m with
  | (tr, inl e) => (tr, inl e)
  | (tr, inr a) => let '(tr', r) := k a in ((tr ++ tr')%list, r)
  end.

Notation "x <- m ;; k" := (bind m (fun x => k))
  (at level 61, m at next level, right associativity).
Notation "m ;;; k" := (bind m (fun _ => k))
  (at level 61, right associativity).

(** [try: body except ...: handler]; the handler answers [None] for an
    exception its [except] clause does not name, which then propagates. *)
Definition try_except {A} (body : M A) (handler : exn -> option (M A)) : M A :=
  match body with
  | (tr, inr a) => (tr, inr a)
  | (tr, inl e) =>
      match handler e with
      | Some (tr', r) => ((tr ++ tr')%list, r)
      | None => (tr, inl e)
      end
  end.

Definition except_FileNotFoundError {A} (h : M A) (e : exn) : option (M A) :=
  match e with FileNotFoundError _ => Some h | OtherError _ => None end.

Definition except_Exception {A} (h : exn -> M A) (e : exn) : option (M A) :=
  Some (h e).

(** [with open(snippet_path, 'r') as f: content = f.read()]. *)
Definition read_file (w : World) (file : string) : M string :=
  match file_content w file with
  | inl e => ([OpenRead file], inl e)
  | inr content => ([OpenRead file], inr content)
  end.

(** [process = subprocess.Popen(argv, stdin=PIPE)] and then
    [process.communicate(input=content.encode())]. *)
Definition run_provider (w : World) (argv : list string) (content : string) : M unit :=
  match spawn w argv with
  | inl e => ([Popen argv], inl e)
  | inr _ => ([Popen argv; Communicate argv content], inr tt)
  end.

Definition wl_copy : list string := ["wl-copy"].
Definition xclip : list string := ["xclip"; "-selection"; "clipboard"].

Definition no_sink_message : string :=
  "Error: Neither wl-copy nor xclip is available".

(** Lines 248-263: the value is [copy_success]. *)
Definition clipboard_copy (w : World) (content : string) : M bool :=
  try_except
    (run_provider w wl_copy content ;;; ret true)
    (except_FileNotFoundError
       (try_except
          (run_provider w xclip content ;;; ret true)
          (except_FileNotFoundError
             (emit (StatusPush no_sink_message) ;;; ret false)))).

(** [provide_visual_feedback], lines 195-236. *)
Definition provide_visual_feedback (s : State) : M unit :=
  match get_selected s with
  | None => ret tt
  | Some _ =>
      emit AddStyle ;;; emit QueueDraw ;;; emit (TimeoutAdd 300 RemoveStyle)
  end.

(** [remove_style], the callback of the 300 ms timer. *)
Definition remove_style : list effect := [DropStyle; QueueDraw].

(** [copy_selected_snippet], lines 238-278. *)
Definition copy_selected_snippet (w : World) (s : State) : list effect :=
  match get_selected s with
  | Some row =>
      let snippet_path := fullPath row in
      let snippet_name := displayName row in
      fst (try_except
             (content <- read_file w snippet_path ;;
              copy_success <- clipboard_copy w content ;;
              (if copy_success : bool
               then emit (StatusPush ("Copied: " ++ snippet_name)) ;;;
                    provide_visual_feedback s
               else ret tt) ;;;
              emit (TimeoutAdd 600 Destroy))
             (except_Exception
                (fun e => emit (StatusPush ("Error: " ++ exn_str e)) ;;;
                          emit (TimeoutAdd 600 Destroy))))
  | None => []
  end.

(** Reading a list of effects: the delays of the scheduled closes, of the
    scheduled feedback reverts, and the status messages, each in order. *)
Definition scheduled_closes (out : list effect) : list nat :=
  flat_map (fun e => match e with TimeoutAdd ms Destroy => [ms] | _ => [] end) out.

Definition feedback_pulses (out : list effect) : list nat :=
  flat_map (fun e => match e with TimeoutAdd ms RemoveStyle => [ms] | _ => [] end) out.

Definition status_pushes (out : list effect) : list string :=
  flat_map (fun e => match e with StatusPush msg => [msg] | _ => [] end) out.

(** The effects of a copy that went through, after the provider was fed. *)
Definition copied_effects (row : Candidate) : list effect :=
  [StatusPush ("Copied: " ++ displayName row); AddStyle; QueueDraw;
   TimeoutAdd 300 RemoveStyle; TimeoutAdd 600 Destroy].

(** The effects of a copy that ended in an exception. *)
Definition error_effects (e : exn) : list effect :=
  [StatusPush ("Error: " ++ exn_str e); TimeoutAdd 600 Destroy].

(** Whether the copy went through: the file was read and [clipboard_copy]
    came back with [copy_success] set. *)
Definition copy_succeeded (w : World) (file : string) : bool :=
  match file_content w file with
  | inr content =>
      match snd (clipboard_copy w content) with
      | inr true => true
      | _ => false
      end
  | inl _ => false
  end.

(** What the user, the timers and the window manager send to the window.
    [CursorMoved pos] is the user putting the cursor on the row at position
    [pos] of the view (a click, the arrow keys), [Unselected] the user
    taking the selection off the selected row (Ctrl+click), [WindowClosed]
    a request to close the window, for which no handler is connected, so
    that GTK destroys the window. *)
Inductive event :=
| SearchChanged (text : string)
| Activate
| RowActivated
| KeyPress (keyname : string)
| TimerFired (cb : callback)
| CursorMoved (pos : nat)
| Unselected
| WindowClosed.

Section Session.

Variable lower : string -> string.

(** The rows [Gtk.TreeModelFilter] shows for the visible function
    [filter_function]: those it accepts, in list-store order. *)
Definition visible_rows (text : string) (store : list Candidate) : list nat :=
  map fst
    (filter (fun ic => filter_function lower text (displayName (snd ic)))
            (combine (seq 0 (List.length store)) store)).

(** [self.filter_store.refilter()]: the view is recomputed; a selected row
    that is filtered out is no longer selected.  (While it removes rows GTK
    may pass the cursor on to a neighbouring row; [on_search_changed] puts
    the cursor on the first row right after whenever a row is left, and an
    empty view has no row to select.) *)
Definition refilter (s : State) : State :=
  let rows := visible_rows (search_entry s) (list_store s) in
  mkState (list_store s) (search_entry s) rows
    (match selection s with
     | Some row => if existsb (Nat.eqb row) rows then Some row else None
     | None => None
     end)
    (destroyed s).

(** [on_search_changed], lines 154-169; the entry already holds the new
    text when the handler runs. *)
Definition on_search_changed (s : State) : State * list effect :=
  let s1 := refilter s in
  let count := List.length (filter_store s1) in
  if (0 <? count)%nat then
    let '(s2, sel_effects) := set_cursor 0 s1 in
    (s2,
     (sel_effects ++
      (if negb (String.eqb (search_entry s2) "")
       then [StatusPush ("Found " ++ str_of_nat count ++ " matching snippets")]
       else []))%list)
  else
    (s1,
     if negb (String.eqb (search_entry s1) "")
     then [StatusPush "No matching snippets found"]
     else []).

(** [__init__]: an empty entry, the loaded rows all shown (the filter is
    asked about each appended row while the entry is still empty), nothing
    selected. *)
Definition init (snippets_dir : path) (tree : fsnode) : State * list effect :=
  let '(store, loaded) := load_snippets snippets_dir tree in
  (mkState store "" (visible_rows "" store) None false, [loaded]).

(** One reaction of the window.  [on_key_press] (lines 183-193) destroys
    the window on Escape and leaves every other key to GTK, whose own
    reactions arrive as [SearchChanged], [CursorMoved] and the like; the
    [destroy] signal is connected to [Gtk.main_quit] (line 292). *)
Definition handle (w : World) (ev : event) (s : State) : State * list effect :=
  match ev with
  | SearchChanged text => on_search_changed (with_text text s)
  | Activate => (s, copy_selected_snippet w s)
  | RowActivated => (s, copy_selected_snippet w s)
  | KeyPress keyname =>
      if String.eqb keyname "Escape" then (destroy s, [MainQuit]) else (s, [])
  | TimerFired Destroy => (destroy s, [MainQuit])
  | TimerFired RemoveStyle => (s, remove_style)
  | CursorMoved pos =>
      match nth_error (filter_store s) pos with
      | Some _ => set_cursor pos s
      | None => (s, [])
      end
  | Unselected =>
      let s' := with_selection None s in (s', on_selection_changed s')
  | WindowClosed => (destroy s, [MainQuit])
  end.

(** Running a sequence of events; the effects accumulate in order. *)
Fixpoint run (w : World) (evs : list event) (s : State) : State * list effect :=
  match evs with
  | [] => (s, [])
  | ev :: evs' =>
      let '(s1, out1) := handle w ev s in
      let '(s2, out2) := run w evs' s1 in
      (s2, (out1 ++ out2)%list)
  end.

End Session.

(** Specification side: the size report a query change with text [q] and
    [n] visible rows is to make. *)
Definition search_report (q : string) (n : nat) : list effect :=
  if String.eqb q "" then []
  else if (n =? 0)%nat then [StatusPush "No matching snippets found"]
  else [StatusPush ("Found " ++ str_of_nat n ++ " matching snippets")].

(** Specification side: the view is up to date and the cursor sits on its
    first row (on none when the view is empty). *)
Definition cursor_on_first (lower : string -> string) (s : State) : Prop :=
  filter_store s = visible_rows lower (search_entry s) (list_store s)
  /\ selection s = hd_error (filter_store s).

(** ** Worked examples *)

Definition snippets_root : path := ["~"; "snippets"].

(** Scenario A of the specification, the root listing [a] before [b]. *)
Definition scenario_A : fsnode :=
  Dir "snippets" [Dir "a" [File "x.txt"]; Dir "b" [File "z.txt"; File "y.txt"]].

(** The same files, the root listing [b] before [a]. *)
Definition scenario_A_b_first : fsnode :=
  Dir "snippets" [Dir "b" [File "z.txt"; File "y.txt"]; Dir "a" [File "x.txt"]].

(** Both clipboard tools installed and working. *)
Definition world_ok : World :=
  mkWorld (fun _ => inr "hello") (fun _ => inr (mkProcess true 0)).

(** [wl-copy] starts but fails while it is fed (no compositor to talk to):
    it closes its input and exits with status 1; [xclip] would work. *)
Definition world_wl_copy_fails : World :=
  mkWorld (fun _ => inr "hello")
          (fun argv => match argv with
                       | "wl-copy" :: _ => inr (mkProcess false 1)
                       | _ => inr (mkProcess true 0)
                       end).

(** [wl-copy] is on the path but may not be executed; [xclip] would work. *)
Definition world_wl_copy_denied : World :=
  mkWorld (fun _ => inr "hello")
          (fun argv => match argv with
                       | "wl-copy" :: _ =>
                           inl (OtherError "[Errno 13] Permission denied: 'wl-copy'")
                       | _ => inr (mkProcess true 0)
                       end).

(** Only [xclip] installed. *)
Definition world_xclip_only : World :=
  mkWorld (fun _ => inr "hello")
          (fun argv => match argv with
                       | "wl-copy" :: _ =>
                           inl (FileNotFoundError "[Errno 2] No such file or directory: 'wl-copy'")
                       | _ => inr (mkProcess true 0)
                       end).

(** No clipboard tool installed. *)
Definition world_no_sink : World :=
  mkWorld (fun _ => inr "hello")
          (fun _ => inl (FileNotFoundError "[Errno 2] No such file or directory")).

(** The window right after start-up on scenario A. *)
Definition started : State := fst (init ascii_lower snippets_root scenario_A).

(** The same window after the user has typed [y]. *)
Definition typed_y : State :=
  fst (handle ascii_lower world_ok (SearchChanged "y") started).

(** ** Notions used by the further properties *)

Definition entry_name (e : fsnode) : string :=
  match e with File n => n | Dir n _ => n end.

(** No directory of the tree lists a name twice. *)
#[warnings="-register-all"]
Inductive unique_names : fsnode -> Prop :=
| unique_file : forall n, unique_names (File n)
| unique_dir : forall n entries,
    NoDup (map entry_name entries) ->
    Forall unique_names entries ->
    unique_names (Dir n entries).

(** Reading a list of effects: the files opened, the commands spawned and
    what was fed to which command, each in order. *)
Definition opened (out : list effect) : list string :=
  flat_map (fun e => match e with OpenRead f => [f] | _ => [] end) out.

Definition spawned (out : list effect) : list (list string) :=
  flat_map (fun e => match e with Popen argv => [argv] | _ => [] end) out.

Definition fed (out : list effect) : list (list string * string) :=
  flat_map (fun e => match e with
                     | Communicate argv input => [(argv, input)]
                     | _ => []
                     end) out.

(** The [while] loop of lines 147-151 with its two indices and Python's
    checked indexing: [s[i]] outside [0 <= i < len(s)] raises [IndexError].
    The loop runs for at most [fuel] iterations. *)
Inductive loop_result :=
| Done (i j : nat)
| IndexError
| OutOfFuel.

Fixpoint while_loop (fuel : nat) (search_text snippet_name : string)
    (i j : nat) : loop_result :=
  if ((i <? String.length search_text)
      && (j <? String.length snippet_name))%nat then
    match fuel with
    | 0 => OutOfFuel
    | S fuel' =>
        match String.get i search_text, String.get j snippet_name with
        | Some a, Some b =>
            while_loop fuel' search_text snippet_name
              (if Ascii.eqb a b then i + 1 else i) (j + 1)
        | _, _ => IndexError
        end
    end
  else Done i j.

(** The view shows what the filter accepts for the text in the entry, and
    the selected row, if any, is one of the rows shown. *)
Definition view_consistent (lower : string -> string) (s : State) : Prop :=
  filter_store s = visible_rows lower (search_entry s) (list_store s)
  /\ match selection s with
     | Some row => In row (filter_store s)
     | None => True
     end.

(** The events that close the window. *)
Definition is_closing (ev : event) : bool :=
  match ev with
  | KeyPress keyname => String.eqb keyname "Escape"
  | TimerFired Destroy => true
  | WindowClosed => true
  | _ => false
  end.

(** The timers a handler has set, and the order in which the main loop
    fires them: by delay, timers of equal delay in the order they were
    set. *)
Definition scheduled (out : list effect) : list (nat * callback) :=
  flat_map (fun e => match e with TimeoutAdd ms cb => [(ms, cb)] | _ => [] end) out.

Fixpoint insert_timer (t : nat * callback) (l : list (nat * callback))
    : list (nat * callback) :=
  match l with
  | [] => [t]
  | u :: l' => if (fst t <=? fst u)%nat then t :: l else u :: insert_timer t l'
  end.

Definition expiry_order (l : list (nat * callback)) : list (nat * callback) :=
  fold_right insert_timer [] l.

Definition timer_events (out : list effect) : list event :=
  map (fun t => TimerFired (snd t)) (expiry_order (scheduled out)).

(** * Proofs *)

(** ** The matcher *)

Lemma prefix_app (p s : string) :
  String.prefix p s = true <-> exists t, s = p ++ t.
Proof.
  revert p; induction s as [|d s IH]; intros [|c p]; simpl.
  - split; [intros _; now exists "" | reflexivity].
  - split; [discriminate | intros [t Ht]; discriminate].
  - split; [intros _; now exists (String d s) | reflexivity].
  - destruct (ascii_dec c d) as [->|Hne].
    + rewrite IH. split; intros [t Ht]; exists t.
      * now rewrite Ht.
      * now injection Ht.
    + split; [discriminate|]. intros [t Ht]. injection Ht as E _.
      now elim Hne.
Qed.

Lemma str_in_spec (needle hay : string) :
  str_in needle hay = true <-> is_substring needle hay.
Proof.
  induction hay as [|c hay IH]; cbn [str_in].
  - destruct (String.prefix needle "") eqn:P.
    + split; [|reflexivity]. intros _.
      apply prefix_app in P as [t Ht]. exists "", t. exact Ht.
    + split; [discriminate|]. intros (b & a & E).
      destruct b; [|discriminate]. simpl in E.
      assert (String.prefix needle "" = true) by (apply prefix_app; eauto).
      congruence.
  - destruct (String.prefix needle (String c hay)) eqn:P.
    + split; [|reflexivity]. intros _.
      apply prefix_app in P as [t Ht]. exists "", t. exact Ht.
    + rewrite IH. split.
      * intros (b & a & E). exists (String c b), a. simpl. now rewrite E.
      * intros (b & a & E). destruct b as [|d b]; simpl in E.
        -- assert (String.prefix needle (String c hay) = true)
             by (apply prefix_app; eauto).
           congruence.
        -- injection E as _ E. now exists b, a.
Qed.

Lemma str_drop_get (s : string) (i : nat) :
  i < String.length s ->
  exists c, String.get i s = Some c /\
            str_drop i s = String c (str_drop (S i) s).
Proof.
  revert i; induction s as [|d s IH]; intros i Hi; simpl in Hi; [lia|].
  destruct i as [|i]; simpl.
  - exists d. split; [reflexivity|]. now destruct s.
  - apply IH. lia.
Qed.

Lemma str_drop_all (s : string) (i : nat) :
  String.length s <= i -> str_drop i s = "".
Proof.
  revert i; induction s as [|d s IH]; intros i Hi; simpl in *.
  - now destruct i.
  - destruct i as [|i]; [lia|]. simpl. apply IH. lia.
Qed.

Lemma subseq_of_empty (q : string) : is_subsequence q "" -> q = "".
Proof. intros H. now inversion H. Qed.

Lemma subseq_drop_head (c : ascii) (q n : string) :
  is_subsequence (String c q) n -> is_subsequence q n.
Proof.
  induction n as [|d n IH]; intros H; inversion H; subst.
  - now apply subseq_skip.
  - apply subseq_skip. now apply IH.
Qed.

Lemma option_ascii_eqb_spec (c d : ascii) :
  option_ascii_eqb (Some c) (Some d) = true <-> c = d.
Proof. simpl. apply Ascii.eqb_eq. Qed.

(** The greedy scan reaches the end of the query exactly when what was left
    of the query is a subsequence of what was left of the name. *)
Lemma fuzzy_scan_spec (s rest : string) (i : nat) :
  i <= String.length s ->
  (fuzzy_scan s i rest = String.length s <->
   is_subsequence (str_drop i s) rest).
Proof.
  revert i; induction rest as [|c rest IH]; intros i Hi; simpl.
  - split.
    + intros ->. rewrite str_drop_all by lia. constructor.
    + intros H. apply subseq_of_empty in H.
      destruct (Nat.eq_dec i (String.length s)) as [E|E]; [exact E|].
      destruct (str_drop_get s i) as (d & _ & Hd); [lia|]. congruence.
  - destruct (Nat.ltb_spec i (String.length s)) as [Hlt|Hge].
    + destruct (str_drop_get s i Hlt) as (d & Hg & Hd). rewrite Hg, Hd.
      destruct (option_ascii_eqb (Some d) (Some c)) eqn:E.
      * apply option_ascii_eqb_spec in E as ->.
        rewrite IH by lia. replace (i + 1) with (S i) by lia. split.
        -- now apply subseq_take.
        -- intros H. inversion H; subst; [assumption|].
           now apply subseq_drop_head with c.
      * rewrite IH by lia. rewrite Hd. split.
        -- now apply subseq_skip.
        -- intros H. inversion H; subst; [|assumption].
           simpl in E. rewrite Ascii.eqb_refl in E. discriminate.
    + split; [|lia]. intros _. rewrite str_drop_all by lia. constructor.
Qed.

(** C1. For every query [q] and name [n], [filter_function] answers [true]
    exactly when [q] is empty, or lower-cased [q] is a contiguous substring
    of lower-cased [n], or lower-cased [q] is a subsequence of lower-cased
    [n]; the answer is a [bool] computed from the two strings alone, and the
    subsequence test is the single left-to-right scan [fuzzy_scan]. *)
Theorem filter_function_spec (lower : string -> string)
    (lower_empty : lower "" = "") (q n : string) :
  (filter_function lower q n = true <->
   q = "" \/ is_substring (lower q) (lower n)
          \/ is_subsequence (lower q) (lower n))
  /\ (is_subsequence (lower q) (lower n) <->
      fuzzy_scan (lower q) 0 (lower n) = String.length (lower q)).
Proof.
  assert (S : is_subsequence (lower q) (lower n) <->
              fuzzy_scan (lower q) 0 (lower n) = String.length (lower q)).
  { rewrite fuzzy_scan_spec by lia. reflexivity. }
  split; [|exact S].
  unfold filter_function.
  destruct (String.eqb_spec (lower q) "") as [E|E].
  - split; [|reflexivity]. intros _. right; right. rewrite E. constructor.
  - destruct (str_in (lower q) (lower n)) eqn:I.
    + split; [|reflexivity]. intros _. right; left. now apply str_in_spec.
    + rewrite Nat.eqb_eq, <- S. split.
      * intros H. now right; right.
      * intros [-> | [H | H]].
        -- now elim E.
        -- apply str_in_spec in H. congruence.
        -- exact H.
Qed.

(** ** The filter view *)

Section FilterView.

Variable lower : string -> string.

Lemma in_combine_seq (A : Type) (l : list A) (a i : nat) (c : A) :
  In (i, c) (combine (seq a (List.length l)) l) <->
  a <= i /\ nth_error l (i - a) = Some c.
Proof.
  revert a; induction l as [|x l IH]; intros a; simpl.
  - split; [tauto|]. intros [_ H]. now destruct (i - a).
  - rewrite IH. split.
    + intros [E | [Hle Hn]].
      * injection E as <- <-. split; [lia|]. now rewrite Nat.sub_diag.
      * split; [lia|]. replace (i - a) with (S (i - S a)) by lia. exact Hn.
    + intros [Hle Hn]. destruct (Nat.eq_dec a i) as [<-|Hne].
      * left. rewrite Nat.sub_diag in Hn. simpl in Hn. congruence.
      * right. split; [lia|].
        replace (i - a) with (S (i - S a)) in Hn by lia. exact Hn.
Qed.

Lemma in_visible_rows (text : string) (store : list Candidate) (i : nat) :
  In i (visible_rows lower text store) <->
  exists c, nth_error store i = Some c /\
            filter_function lower text (displayName c) = true.
Proof.
  unfold visible_rows. rewrite in_map_iff. split.
  - intros ([j c] & E & H). simpl in E. subst j.
    apply filter_In in H as [H M]. apply in_combine_seq in H as [_ H].
    rewrite Nat.sub_0_r in H. now exists c.
  - intros (c & H & M). exists (i, c). split; [reflexivity|].
    apply filter_In. split; [|exact M].
    apply in_combine_seq. rewrite Nat.sub_0_r. split; [lia|exact H].
Qed.

Lemma visible_rows_from (A : Type) (keep : nat * A -> bool) (l : list A) (a : nat) :
  StronglySorted lt (map fst (filter keep (combine (seq a (List.length l)) l)))
  /\ Forall (le a) (map fst (filter keep (combine (seq a (List.length l)) l))).
Proof.
  revert a; induction l as [|x l IH]; intros a; simpl.
  - split; constructor.
  - destruct (IH (S a)) as [S1 F1].
    assert (F2 : Forall (le a)
                   (map fst (filter keep (combine (seq (S a) (List.length l)) l)))).
    { eapply Forall_impl; [|exact F1]. simpl. intros; lia. }
    destruct (keep (a, x)); simpl.
    + split; constructor; auto.
    + split; assumption.
Qed.

Lemma visible_rows_sorted (text : string) (store : list Candidate) :
  StronglySorted lt (visible_rows lower text store).
Proof. apply visible_rows_from. Qed.

Lemma filter_all (A : Type) (keep : A -> bool) (l : list A) :
  (forall x, In x l -> keep x = true) -> filter keep l = l.
Proof.
  induction l as [|x l IH]; intros H; simpl; [reflexivity|].
  rewrite H by now left. f_equal. apply IH. intros y Hy. apply H. now right.
Qed.

Lemma map_fst_combine_seq (A : Type) (l : list A) (a : nat) :
  map fst (combine (seq a (List.length l)) l) = seq a (List.length l).
Proof.
  revert a; induction l as [|x l IH]; intros a; simpl; [reflexivity|].
  now rewrite IH.
Qed.

Lemma filter_function_empty (name : string) :
  lower "" = "" -> filter_function lower "" name = true.
Proof. intros E. unfold filter_function. now rewrite E. Qed.

Lemma visible_rows_empty_query (store : list Candidate) :
  lower "" = "" ->
  visible_rows lower "" store = seq 0 (List.length store).
Proof.
  intros E. unfold visible_rows. rewrite filter_all.
  - apply map_fst_combine_seq.
  - intros x _. now apply filter_function_empty.
Qed.

Lemma on_search_changed_view (s : State) :
  let s' := fst (on_search_changed lower s) in
  list_store s' = list_store s
  /\ search_entry s' = search_entry s
  /\ destroyed s' = destroyed s
  /\ filter_store s' = visible_rows lower (search_entry s) (list_store s)
  /\ selection s' = hd_error (filter_store s').
Proof.
  unfold on_search_changed. simpl.
  destruct (visible_rows lower (search_entry s) (list_store s)) as [|r rows] eqn:V;
    simpl.
  - rewrite ?V. repeat split; try reflexivity. now destruct (selection s).
  - rewrite ?V. repeat split; reflexivity.
Qed.

End FilterView.

(** C2. After a query change to [q] the view holds exactly the rows whose
    display name [filter_function] accepts for [q], in list-store order
    (strictly increasing row numbers, so nothing is reordered or repeated);
    it is contained in the view of the empty query, which shows every row;
    and issuing [q] again leaves the view as it is. *)
Theorem visible_set_spec (lower : string -> string)
    (lower_empty : lower "" = "") (w : World) (q : string) (s : State) :
  let s' := fst (handle lower w (SearchChanged q) s) in
  let all := fst (handle lower w (SearchChanged "") s) in
  list_store s' = list_store s
  /\ (forall i, In i (filter_store s') <->
                exists c, nth_error (list_store s) i = Some c /\
                          filter_function lower q (displayName c) = true)
  /\ StronglySorted lt (filter_store s')
  /\ incl (filter_store s') (filter_store all)
  /\ filter_store all = seq 0 (List.length (list_store s))
  /\ filter_store (fst (handle lower w (SearchChanged q) s')) = filter_store s'.
Proof.
  cbn [handle].
  destruct (on_search_changed_view lower (with_text q s)) as (L & T & _ & F & _).
  destruct (on_search_changed_view lower (with_text "" s)) as (_ & _ & _ & F0 & _).
  destruct (on_search_changed_view lower
              (with_text q (fst (on_search_changed lower (with_text q s)))))
    as (_ & _ & _ & F2 & _).
  cbn [with_text list_store search_entry] in *.
  rewrite F0, (visible_rows_empty_query lower _ lower_empty).
  repeat split.
  - exact L.
  - rewrite F. apply in_visible_rows.
  - rewrite F. apply in_visible_rows.
  - rewrite F. apply visible_rows_sorted.
  - rewrite F. intros i Hi. apply in_visible_rows in Hi as (c & Hc & _).
    apply in_seq. split; [lia|]. simpl. apply nth_error_Some. congruence.
  - rewrite F2, F, L. reflexivity.
Qed.

Lemma run_cons_state (lower : string -> string) (w : World)
    (ev : event) (evs : list event) (s : State) :
  fst (run lower w (ev :: evs) s) = fst (run lower w evs (fst (handle lower w ev s))).
Proof.
  simpl. destruct (handle lower w ev s) as [s1 out1]. simpl.
  now destruct (run lower w evs s1).
Qed.

Lemma handle_search_cursor (lower : string -> string) (w : World)
    (q : string) (s : State) :
  cursor_on_first lower (fst (handle lower w (SearchChanged q) s)).
Proof.
  cbn [handle].
  destruct (on_search_changed_view lower (with_text q s)) as (L & T & _ & F & C).
  split; [|exact C]. now rewrite F, L, T.
Qed.

(** ** The candidate store *)

Lemma fsnode_tree_ind (P : fsnode -> Prop) :
  (forall n, P (File n)) ->
  (forall n entries, Forall P entries -> P (Dir n entries)) ->
  forall d, P d.
Proof.
  intros HF HD. fix IH 1. intros [n | n entries].
  - apply HF.
  - apply HD. revert entries. fix IHes 1. intros [|e entries].
    + constructor.
    + constructor; [apply IH | apply IHes].
Qed.

Lemma insert_sorted_perm (x : string) (l : list string) :
  Permutation (insert_sorted x l) (x :: l).
Proof.
  induction l as [|y l IH]; simpl; [reflexivity|].
  destruct (String.leb x y); [reflexivity|].
  rewrite IH. apply perm_swap.
Qed.

Lemma sorted_perm (l : list string) : Permutation (sorted l) l.
Proof.
  induction l as [|x l IH]; simpl; [reflexivity|].
  rewrite insert_sorted_perm. now constructor.
Qed.

Lemma insert_sorted_sorted (x : string) (l : list string) :
  Sorted (fun a b => String.leb a b = true) l ->
  Sorted (fun a b => String.leb a b = true) (insert_sorted x l).
Proof.
  induction l as [|y l IH]; intros H; simpl.
  - repeat constructor.
  - destruct (String.leb x y) eqn:E.
    + constructor; [exact H | now constructor].
    + inversion H as [|? ? Hs Hh]; subst. constructor; [now apply IH|].
      assert (Lyx : String.leb y x = true).
      { destruct (String.leb_total x y); congruence. }
      destruct l as [|z l]; simpl; [now constructor|].
      destruct (String.leb x z); constructor; [exact Lyx|].
      now inversion Hh.
Qed.

Lemma sorted_sorted (l : list string) :
  Sorted (fun a b => String.leb a b = true) (sorted l).
Proof.
  induction l as [|x l IH]; simpl; [constructor|].
  now apply insert_sorted_sorted.
Qed.

Lemma relpath_below (top rel : path) : relpath (top ++ rel)%list top = rel.
Proof.
  induction top as [|c top IH]; simpl.
  - now destruct rel.
  - now rewrite String.eqb_refl.
Qed.

Lemma load_file_fold (snippets_dir root : path) (files : list string) :
  forall acc,
    fold_left (load_file snippets_dir root) files acc =
    ((fst acc ++ map (fun file =>
                        mkCandidate (path_str (path_join root file))
                          (path_str (relpath (path_join root file) snippets_dir)))
                     files)%list,
     snd acc + List.length files).
Proof.
  induction files as [|f files IH]; intros [store count]; simpl.
  - now rewrite app_nil_r, Nat.add_0_r.
  - rewrite IH. simpl. rewrite <- app_assoc. simpl. f_equal. lia.
Qed.

Lemma walk_fold (snippets_dir : path)
    (triples : list (path * list string * list string)) :
  forall acc,
    fold_left
      (fun acc '(root, _, files) =>
         fold_left (load_file snippets_dir root) (sorted files) acc)
      triples acc =
    ((fst acc ++ flat_map (rows_of_triple snippets_dir) triples)%list,
     snd acc + List.length (flat_map (rows_of_triple snippets_dir) triples)).
Proof.
  induction triples as [|[[root dirs] files] triples IH]; intros [store count]; simpl.
  - now rewrite app_nil_r, Nat.add_0_r.
  - rewrite IH, load_file_fold. simpl.
    rewrite <- app_assoc, length_app, length_map. f_equal. lia.
Qed.

Lemma rows_of_walk (top : path) (d : fsnode) :
  forall rel,
    flat_map (rows_of_triple top) (walk (top ++ rel)%list d) =
    map (row_of top) (load_order rel d).
Proof.
  induction d as [n | n entries IH] using fsnode_tree_ind; intros rel.
  - reflexivity.
  - cbn [walk load_order flat_map]. rewrite map_app. f_equal.
    + cbn [rows_of_triple]. rewrite map_map. apply map_ext. intros f.
      unfold row_of, path_join. now rewrite <- app_assoc, relpath_below.
    + induction IH as [|e entries He _ IHes]; [reflexivity|].
      cbn [flat_map]. rewrite flat_map_app, map_app, IHes. f_equal.
      destruct e as [m | m sub]; [reflexivity|].
      unfold path_join. rewrite <- app_assoc. apply He.
Qed.

Lemma load_order_files (d : fsnode) :
  forall rel, Permutation (load_order rel d) (files_below rel d).
Proof.
  induction d as [n | n entries IH] using fsnode_tree_ind; intros rel.
  - reflexivity.
  - cbn [load_order files_below].
    rewrite (Permutation_map (path_join rel) (sorted_perm (filenames entries))).
    induction IH as [|e entries He _ IHes]; [reflexivity|].
    destruct e as [m | m sub]; cbn [filenames flat_map map app] in *.
    + constructor. exact IHes.
    + rewrite <- He, <- IHes.
      rewrite !app_assoc. apply Permutation_app_tail, Permutation_app_comm.
Qed.

Lemma load_snippets_rows (top : path) (tree : fsnode) :
  fst (load_snippets top tree) = map (row_of top) (load_order [] tree)
  /\ snd (load_snippets top tree) =
     StatusPush ("Loaded "
                 ++ str_of_nat (List.length (fst (load_snippets top tree)))
                 ++ " snippets").
Proof.
  unfold load_snippets. rewrite walk_fold. cbn [fst snd app Nat.add].
  split; [|reflexivity].
  rewrite <- (app_nil_r top) at 2. apply rows_of_walk.
Qed.

(** C4 (as amended). [load_snippets] appends one row per file of the tree
    and none for a directory: the loaded paths are a rearrangement of the
    files below the root.  Their order is a function of the tree and its
    listing order: a directory contributes its own files first, in
    lexicographic order, and then its sub-directories one after the other in
    the order the directory lists them.  Scenario A, the root listing [a]
    before [b], loads [a/x.txt], [b/y.txt], [b/z.txt]. *)
Theorem load_snippets_spec (top : path) (tree : fsnode) :
  fst (load_snippets top tree) = map (row_of top) (load_order [] tree)
  /\ Permutation (load_order [] tree) (files_below [] tree)
  /\ (forall rel name entries,
        load_order rel (Dir name entries) =
        (map (path_join rel) (sorted (filenames entries))
         ++ flat_map (fun e => match e with
                               | Dir n _ => load_order (path_join rel n) e
                               | File _ => []
                               end) entries)%list)
  /\ (forall files, Sorted (fun a b => String.leb a b = true) (sorted files)
                    /\ Permutation (sorted files) files)
  /\ map displayName (fst (load_snippets top scenario_A))
     = ["a/x.txt"; "b/y.txt"; "b/z.txt"].
Proof.
  split; [apply load_snippets_rows|].
  split; [apply load_order_files|].
  split; [reflexivity|].
  split; [intros files; split; [apply sorted_sorted | apply sorted_perm]|].
  destruct (load_snippets_rows top scenario_A) as [-> _].
  rewrite map_map. reflexivity.
Qed.

(** ** The clipboard dispatcher and the selection controller *)

Lemma clipboard_copy_table (w : World) (content : string) :
  clipboard_copy w content =
  match spawn w wl_copy with
  | inr _ => ([Popen wl_copy; Communicate wl_copy content], inr true)
  | inl (OtherError m) => ([Popen wl_copy], inl (OtherError m))
  | inl (FileNotFoundError _) =>
      match spawn w xclip with
      | inr _ => ([Popen wl_copy; Popen xclip; Communicate xclip content], inr true)
      | inl (OtherError m) => ([Popen wl_copy; Popen xclip], inl (OtherError m))
      | inl (FileNotFoundError _) =>
          ([Popen wl_copy; Popen xclip; StatusPush no_sink_message], inr false)
      end
  end.
Proof.
  unfold clipboard_copy, run_provider.
  destruct (spawn w wl_copy) as [[m|m]|p]; try reflexivity.
  destruct (spawn w xclip) as [[m'|m']|p']; reflexivity.
Qed.

Lemma copy_selected_snippet_table (w : World) (s : State) (row : Candidate) :
  get_selected s = Some row ->
  copy_selected_snippet w s =
  OpenRead (fullPath row) ::
  match file_content w (fullPath row) with
  | inl e => error_effects e
  | inr content =>
      match clipboard_copy w content with
      | (tr, inr true) => (tr ++ copied_effects row)%list
      | (tr, inr false) => (tr ++ [TimeoutAdd 600 Destroy])%list
      | (tr, inl e) => (tr ++ error_effects e)%list
      end
  end.
Proof.
  intros H. unfold copy_selected_snippet, provide_visual_feedback, read_file.
  rewrite H. destruct (file_content w (fullPath row)) as [e|content];
    [reflexivity|].
  unfold clipboard_copy, run_provider.
  destruct (spawn w wl_copy) as [[m|m]|p]; try reflexivity.
  destruct (spawn w xclip) as [[m'|m']|p']; reflexivity.
Qed.

Ltac spawn_cases w :=
  destruct (spawn w wl_copy) as [[?|?]|?] eqn:?;
  [ destruct (spawn w xclip) as [[?|?]|?] eqn:? | | ].

Ltac settle :=
  repeat match goal with
         | |- _ /\ _ => split
         | |- _ <-> _ => split
         | |- forall _, _ => intro
         | |- ~ _ => intro
         | H : exists _, _ |- _ => destruct H
         | H : _ /\ _ |- _ => destruct H
         | H : _ \/ _ |- _ => destruct H
         | H : In _ _ |- _ => simpl in H
         | H : False |- _ => destruct H
         end;
  try congruence; try discriminate; eauto 6;
  try solve [ simpl; tauto
            | left; congruence
            | right; split; [eauto | congruence] ].

(** C5 (as amended). [clipboard_copy] starts with [wl-copy]; it goes on to
    [xclip] exactly when spawning [wl-copy] raised [FileNotFoundError]; it
    succeeds exactly when the first provider it could spawn was fed, whatever
    that process then did; it reports that no sink is available exactly when
    both spawns raised [FileNotFoundError]; and any other exception of a
    spawn leaves the dispatcher at once, no further provider being tried. *)
Theorem clipboard_copy_spec (w : World) (content : string) :
  let out := fst (clipboard_copy w content) in
  let res := snd (clipboard_copy w content) in
  hd_error out = Some (Popen wl_copy)
  /\ (In (Popen xclip) out <->
      exists m, spawn w wl_copy = inl (FileNotFoundError m))
  /\ (res = inr true <->
      (exists p, spawn w wl_copy = inr p)
      \/ ((exists m, spawn w wl_copy = inl (FileNotFoundError m))
          /\ exists p, spawn w xclip = inr p))
  /\ (res = inr false <->
      (exists m, spawn w wl_copy = inl (FileNotFoundError m))
      /\ exists m, spawn w xclip = inl (FileNotFoundError m))
  /\ (In (StatusPush no_sink_message) out <-> res = inr false)
  /\ (forall m, res = inl (OtherError m) <->
                spawn w wl_copy = inl (OtherError m)
                \/ ((exists m', spawn w wl_copy = inl (FileNotFoundError m'))
                    /\ spawn w xclip = inl (OtherError m)))
  /\ (forall m, res <> inl (FileNotFoundError m)).
Proof.
  rewrite clipboard_copy_table.
  spawn_cases w; unfold wl_copy, xclip in *; cbn [fst snd hd_error]; settle.
Qed.

Lemma copy_succeeded_table (w : World) (file : string) :
  copy_succeeded w file =
  match file_content w file with
  | inl _ => false
  | inr _ =>
      match spawn w wl_copy with
      | inr _ => true
      | inl (OtherError _) => false
      | inl (FileNotFoundError _) =>
          match spawn w xclip with inr _ => true | inl _ => false end
      end
  end.
Proof.
  unfold copy_succeeded. destruct (file_content w file) as [e|content];
    [reflexivity|].
  rewrite clipboard_copy_table.
  destruct (spawn w wl_copy) as [[m|m]|p]; try reflexivity.
  destruct (spawn w xclip) as [[m'|m']|p']; reflexivity.
Qed.

Ltac copy_cases w row :=
  rewrite ?copy_succeeded_table;
  destruct (file_content w (fullPath row)) as [?|?] eqn:?;
  [ | rewrite ?clipboard_copy_table; spawn_cases w ];
  unfold wl_copy, xclip, copied_effects, error_effects, no_sink_message in *;
  cbn [app fst snd scheduled_closes feedback_pulses status_pushes flat_map
       last exn_str].

Ltac settle_copy :=
  settle;
  try solve [ reflexivity
            | left; reflexivity
            | eexists; reflexivity
            | right; eexists; reflexivity ].

(** C6. A confirmation with a row under the cursor schedules exactly one
    close, 600 ms ahead, as the last thing it does, on every path: after a
    successful copy, after a failed read, after both providers were missing,
    and after any other exception.  Each path pushes exactly one status
    message before it, ["Copied: <name>"] or one that starts with
    ["Error: "]. *)
Theorem one_close_per_confirmation (w : World) (s : State) (row : Candidate) :
  get_selected s = Some row ->
  let out := copy_selected_snippet w s in
  scheduled_closes out = [600]
  /\ last out MainQuit = TimeoutAdd 600 Destroy
  /\ (status_pushes out = ["Copied: " ++ displayName row]
      \/ exists detail, status_pushes out = ["Error: " ++ detail])
  /\ (forall e, file_content w (fullPath row) = inl e ->
        out = [OpenRead (fullPath row);
               StatusPush ("Error: " ++ exn_str e); TimeoutAdd 600 Destroy])
  /\ (forall content m1 m2,
        file_content w (fullPath row) = inr content ->
        spawn w wl_copy = inl (FileNotFoundError m1) ->
        spawn w xclip = inl (FileNotFoundError m2) ->
        out = [OpenRead (fullPath row); Popen wl_copy; Popen xclip;
               StatusPush no_sink_message; TimeoutAdd 600 Destroy])
  /\ (copy_succeeded w (fullPath row) = false ->
      exists detail, status_pushes out = ["Error: " ++ detail]).
Proof.
  intros H out. subst out. rewrite (copy_selected_snippet_table w s row H).
  copy_cases w row; settle_copy.
Qed.

(** C7 (as amended). For a confirmation with a row under the cursor, the
    feedback pulse (the highlight and its 300 ms revert timer) is emitted
    exactly when [copy_success] is set, and so is the status
    ["Copied: <name>"]; [copy_success] is set exactly when the file was read
    and a provider could be spawned, [wl-copy] or, [wl-copy] missing,
    [xclip], whatever the process then did with the text; when both
    providers are missing the failure is reported, the close is scheduled
    and there is no pulse. *)
Theorem feedback_iff_copied (w : World) (s : State) (row : Candidate) :
  get_selected s = Some row ->
  let out := copy_selected_snippet w s in
  let ok := copy_succeeded w (fullPath row) in
  feedback_pulses out = (if ok then [300] else [])
  /\ (In (TimeoutAdd 300 RemoveStyle) out <-> ok = true)
  /\ (In AddStyle out <-> ok = true)
  /\ (In (StatusPush ("Copied: " ++ displayName row)) out <-> ok = true)
  /\ (forall content m1 m2,
        file_content w (fullPath row) = inr content ->
        spawn w wl_copy = inl (FileNotFoundError m1) ->
        spawn w xclip = inl (FileNotFoundError m2) ->
        ok = false
        /\ status_pushes out = [no_sink_message]
        /\ scheduled_closes out = [600]
        /\ feedback_pulses out = []
        /\ ~ In AddStyle out)
  /\ (ok = true <->
      exists content,
        file_content w (fullPath row) = inr content
        /\ ((exists p, spawn w wl_copy = inr p)
            \/ ((exists m, spawn w wl_copy = inl (FileNotFoundError m))
                /\ exists p, spawn w xclip = inr p))).
Proof.
  intros H out ok. subst out ok.
  rewrite (copy_selected_snippet_table w s row H).
  copy_cases w row; settle_copy;
    solve [ eexists; split;
            [reflexivity | right; split; eexists; reflexivity] ].
Qed.

(** C9. Without a row under the cursor a confirmation, be it Enter in the
    search entry or the activation of a row, does nothing: no effect at all
    (no file opened, no process spawned, no status, no timer) and the state
    is the one before. *)
Theorem confirm_without_cursor (lower : string -> string) (w : World) (s : State) :
  selection s = None ->
  copy_selected_snippet w s = []
  /\ handle lower w Activate s = (s, [])
  /\ handle lower w RowActivated s = (s, []).
Proof.
  intros H. assert (E : copy_selected_snippet w s = []).
  { unfold copy_selected_snippet, get_selected. now rewrite H. }
  cbn [handle]. now rewrite E.
Qed.

(** C10 (as amended). Once a provider has been launched the copy counts as done, whatever
    the process reports: if [wl-copy] spawns, or if it is missing and
    [xclip] spawns, the effects are the spawn, the feeding of the process,
    ["Copied: <name>"], the feedback pulse and the close, for every exit
    status and every outcome of the write. *)
Theorem launched_counts_as_copied (w : World) (s : State) (row : Candidate)
    (content : string) :
  get_selected s = Some row ->
  file_content w (fullPath row) = inr content ->
  let out := copy_selected_snippet w s in
  (forall p : process,
     spawn w wl_copy = inr p ->
     out = (OpenRead (fullPath row) :: Popen wl_copy
            :: Communicate wl_copy content :: copied_effects row)
     /\ copy_succeeded w (fullPath row) = true)
  /\ (forall (m : string) (p : process),
        spawn w wl_copy = inl (FileNotFoundError m) ->
        spawn w xclip = inr p ->
        out = (OpenRead (fullPath row) :: Popen wl_copy :: Popen xclip
               :: Communicate xclip content :: copied_effects row)
        /\ copy_succeeded w (fullPath row) = true)
  /\ In (StatusPush ("Copied: " ++ displayName row)) (copied_effects row)
  /\ feedback_pulses (copied_effects row) = [300].
Proof.
  intros H R out. subst out.
  rewrite (copy_selected_snippet_table w s row H), copy_succeeded_table, R,
    clipboard_copy_table.
  split; [|split; [|split; [now left | reflexivity]]].
  - intros p E. now rewrite E.
  - intros m p E E'. now rewrite E, E'.
Qed.

(** ** Status reports of the filter view *)

Lemma on_search_changed_effects (lower : string -> string) (s : State) :
  exists sel,
    snd (on_search_changed lower s) =
    (sel ++ search_report (search_entry s)
              (List.length (filter_store (fst (on_search_changed lower s)))))%list
    /\ (sel = [] \/
        exists c, sel = [StatusPush ("Selected: " ++ displayName c)]).
Proof.
  unfold on_search_changed, set_cursor, search_report.
  destruct (refilter lower s) as [store text rows sel0 d] eqn:R.
  assert (T : text = search_entry s).
  { unfold refilter in R. now injection R. }
  subst text. destruct rows as [|r rows]; cbn.
  - exists []. split; [|now left]. now destruct (String.eqb (search_entry s) "").
  - destruct (option_nat_eqb sel0 (Some r)).
    + exists []. split; [|now left].
      now destruct (String.eqb (search_entry s) "").
    + unfold on_selection_changed, get_selected. cbn.
      destruct (nth_error store r) as [c|].
      * exists [StatusPush ("Selected: " ++ displayName c)].
        split; [|right; now exists c].
        now destruct (String.eqb (search_entry s) "").
      * exists []. split; [|now left].
        now destruct (String.eqb (search_entry s) "").
Qed.

(** C8 (as amended). A query change to a non-empty text pushes, as its last
    status, ["No matching snippets found"] when the view is empty and
    ["Found N matching snippets"] for a view of [N >= 1] rows; a query change
    to the empty text pushes no report of a size; before the report at most
    the selection's own ["Selected: <name>"] is pushed.  The number of
    loaded rows is reported once, by [load_snippets], as
    ["Loaded N snippets"], and the three wordings differ. *)
Theorem search_status_report (lower : string -> string) (w : World)
    (q : string) (s : State) :
  let s' := fst (handle lower w (SearchChanged q) s) in
  let out := snd (handle lower w (SearchChanged q) s) in
  (exists sel,
      out = (sel ++ search_report q (List.length (filter_store s')))%list
      /\ (sel = [] \/
          exists c, sel = [StatusPush ("Selected: " ++ displayName c)]))
  /\ search_report "" (List.length (filter_store s')) = []
  /\ (forall c, search_report (String c q) 0
                = [StatusPush "No matching snippets found"])
  /\ (forall c n, search_report (String c q) (S n)
                  = [StatusPush ("Found " ++ str_of_nat (S n)
                                 ++ " matching snippets")])
  /\ (forall top tree,
        snd (load_snippets top tree) =
        StatusPush ("Loaded "
                    ++ str_of_nat (List.length (fst (load_snippets top tree)))
                    ++ " snippets"))
  /\ (forall n m,
        "Found " ++ str_of_nat n ++ " matching snippets"
          <> "No matching snippets found"
        /\ "Found " ++ str_of_nat n ++ " matching snippets"
          <> "Loaded " ++ str_of_nat m ++ " snippets"
        /\ "No matching snippets found"
          <> "Loaded " ++ str_of_nat m ++ " snippets").
Proof.
  cbn [handle]. split.
  - destruct (on_search_changed_effects lower (with_text q s)) as (sel & E & S).
    exists sel. split; [exact E | exact S].
  - split; [reflexivity|]. split; [reflexivity|]. split; [reflexivity|].
    split; [intros; apply load_snippets_rows|].
    intros n m. repeat split; discriminate.
Qed.

(** * Worked instances *)

(** The matcher on the examples of the specification. *)
Example matcher_examples :
  filter_function ascii_lower "ab" "ba" = false
  /\ filter_function ascii_lower "ab" "a_b" = true
  /\ filter_function ascii_lower "yz" "y.txt" = false
  /\ filter_function ascii_lower "yz" "z.txt" = false
  /\ filter_function ascii_lower "yt" "y.txt" = true
  /\ filter_function ascii_lower "TXT" "notes/Todo.txt" = true
  /\ filter_function ascii_lower "" "anything" = true.
Proof. repeat split; reflexivity. Qed.

Lemma filter_function_spec_witness :
  ascii_lower "" = ""
  /\ (filter_function ascii_lower "yt" "y.txt" = true <->
      "yt" = "" \/ is_substring (ascii_lower "yt") (ascii_lower "y.txt")
                \/ is_subsequence (ascii_lower "yt") (ascii_lower "y.txt")).
Proof.
  split; [reflexivity|].
  exact (proj1 (filter_function_spec ascii_lower eq_refl "yt" "y.txt")).
Defined.

Lemma visible_set_spec_witness :
  ascii_lower "" = ""
  /\ filter_store (fst (handle ascii_lower world_ok (SearchChanged "bt") started))
     = [1; 2]
  /\ incl (filter_store (fst (handle ascii_lower world_ok (SearchChanged "bt") started)))
          (filter_store (fst (handle ascii_lower world_ok (SearchChanged "") started))).
Proof.
  split; [reflexivity|]. split; [reflexivity|].
  exact (proj1 (proj2 (proj2 (proj2
           (visible_set_spec ascii_lower eq_refl world_ok "bt" started))))).
Defined.

(** C3, the claim as stated fails at start-up: three rows are shown and no
    row is selected, so that Enter does nothing. *)
Lemma cursor_none_at_startup :
  filter_store started = [0; 1; 2]
  /\ selection started = None
  /\ handle ascii_lower world_ok Activate started = (started, []).
Proof. repeat split; reflexivity. Qed.

(** C4, the claim as stated fails when the root lists [b] before [a]: the
    same three files are loaded in another order. *)
Lemma load_order_follows_listing :
  Permutation (files_below [] scenario_A_b_first) (files_below [] scenario_A)
  /\ map displayName (fst (load_snippets snippets_root scenario_A_b_first))
     = ["b/y.txt"; "b/z.txt"; "a/x.txt"].
Proof.
  split; [|reflexivity].
  cbn. apply (Permutation_app_comm [["b"; "z.txt"]; ["b"; "y.txt"]] [["a"; "x.txt"]]).
Qed.

(** C5, the claim as stated fails: a [wl-copy] that starts and then fails
    is taken for a success and [xclip], which would work, is not tried; a
    [wl-copy] that may not be executed ends the dispatch with its
    exception, again without [xclip]. *)
Lemma failing_provider_not_followed :
  spawn world_wl_copy_fails wl_copy = inr (mkProcess false 1)
  /\ spawn world_wl_copy_fails xclip = inr (mkProcess true 0)
  /\ clipboard_copy world_wl_copy_fails "hello"
     = ([Popen wl_copy; Communicate wl_copy "hello"], inr true)
  /\ spawn world_wl_copy_denied xclip = inr (mkProcess true 0)
  /\ clipboard_copy world_wl_copy_denied "hello"
     = ([Popen wl_copy],
        inl (OtherError "[Errno 13] Permission denied: 'wl-copy'")).
Proof. repeat split; reflexivity. Qed.

Lemma one_close_per_confirmation_witness :
  get_selected typed_y = Some (mkCandidate "~/snippets/b/y.txt" "b/y.txt")
  /\ scheduled_closes (copy_selected_snippet world_no_sink typed_y) = [600]
  /\ status_pushes (copy_selected_snippet world_no_sink typed_y)
     = [no_sink_message].
Proof.
  split; [reflexivity|]. split; [|reflexivity].
  exact (proj1 (one_close_per_confirmation world_no_sink typed_y
                  (mkCandidate "~/snippets/b/y.txt" "b/y.txt") eq_refl)).
Defined.

Lemma feedback_iff_copied_witness :
  get_selected typed_y = Some (mkCandidate "~/snippets/b/y.txt" "b/y.txt")
  /\ copy_succeeded world_xclip_only "~/snippets/b/y.txt" = true
  /\ feedback_pulses (copy_selected_snippet world_xclip_only typed_y) = [300]
  /\ copy_succeeded world_no_sink "~/snippets/b/y.txt" = false
  /\ feedback_pulses (copy_selected_snippet world_no_sink typed_y) = [].
Proof.
  split; [reflexivity|]. split; [reflexivity|]. split; [|split; [reflexivity|]].
  - exact (proj1 (feedback_iff_copied world_xclip_only typed_y
                    (mkCandidate "~/snippets/b/y.txt" "b/y.txt") eq_refl)).
  - exact (proj1 (feedback_iff_copied world_no_sink typed_y
                    (mkCandidate "~/snippets/b/y.txt" "b/y.txt") eq_refl)).
Defined.

(** C7, the claim as stated fails when a provider starts and then fails:
    [wl-copy] takes nothing from its input and exits with status 1, no
    text reaches the clipboard, and still ["Copied: b/y.txt"] is pushed and
    the pulse is emitted. *)
Lemma pulse_without_delivery :
  spawn world_wl_copy_fails wl_copy = inr (mkProcess false 1)
  /\ copy_selected_snippet world_wl_copy_fails typed_y
     = [OpenRead "~/snippets/b/y.txt"; Popen wl_copy;
        Communicate wl_copy "hello"; StatusPush "Copied: b/y.txt"; AddStyle;
        QueueDraw; TimeoutAdd 300 RemoveStyle; TimeoutAdd 600 Destroy]
  /\ feedback_pulses (copy_selected_snippet world_wl_copy_fails typed_y) = [300].
Proof. repeat split; reflexivity. Qed.

(** C10, the claim as stated fails for a spawn that fails otherwise than
    with file-not-found: [wl-copy] may not be executed, the exception is
    reported, nothing counts as copied and no pulse is emitted. *)
Lemma spawn_error_not_copied :
  spawn world_wl_copy_denied wl_copy
  = inl (OtherError "[Errno 13] Permission denied: 'wl-copy'")
  /\ copy_selected_snippet world_wl_copy_denied typed_y
     = [OpenRead "~/snippets/b/y.txt"; Popen wl_copy;
        StatusPush "Error: [Errno 13] Permission denied: 'wl-copy'";
        TimeoutAdd 600 Destroy]
  /\ copy_succeeded world_wl_copy_denied "~/snippets/b/y.txt" = false
  /\ feedback_pulses (copy_selected_snippet world_wl_copy_denied typed_y) = [].
Proof. repeat split; reflexivity. Qed.

(** C8, the claim as stated fails for the empty query: clearing the entry
    pushes no report of a size, only the selection's message, and nothing
    at all when no snippet is loaded. *)
Lemma empty_query_reports_no_size :
  snd (handle ascii_lower world_ok (SearchChanged "") typed_y)
  = [StatusPush "Selected: a/x.txt"]
  /\ snd (handle ascii_lower world_ok (SearchChanged "")
            (fst (init ascii_lower snippets_root (Dir "snippets" []))))
     = []
  /\ List.length (filter_store
                    (fst (handle ascii_lower world_ok (SearchChanged "") typed_y)))
     = 3.
Proof. repeat split; reflexivity. Qed.

Lemma confirm_without_cursor_witness :
  selection started = None
  /\ handle ascii_lower world_ok Activate started = (started, []).
Proof.
  split; [reflexivity|].
  exact (proj1 (proj2 (confirm_without_cursor ascii_lower world_ok started eq_refl))).
Defined.

Lemma launched_counts_as_copied_witness :
  get_selected typed_y = Some (mkCandidate "~/snippets/b/y.txt" "b/y.txt")
  /\ file_content world_wl_copy_fails "~/snippets/b/y.txt" = inr "hello"
  /\ spawn world_wl_copy_fails wl_copy = inr (mkProcess false 1)
  /\ copy_selected_snippet world_wl_copy_fails typed_y
     = [OpenRead "~/snippets/b/y.txt"; Popen wl_copy;
        Communicate wl_copy "hello"; StatusPush "Copied: b/y.txt"; AddStyle;
        QueueDraw; TimeoutAdd 300 RemoveStyle; TimeoutAdd 600 Destroy].
Proof.
  split; [reflexivity|]. split; [reflexivity|]. split; [reflexivity|].
  exact (proj1 (proj1 (launched_counts_as_copied world_wl_copy_fails typed_y
                         (mkCandidate "~/snippets/b/y.txt" "b/y.txt") "hello"
                         eq_refl eq_refl)
                      (mkProcess false 1) eq_refl)).
Defined.

(** * Further properties of the code *)

(** ** More on the matcher *)

Lemma subseq_refl (s : string) : is_subsequence s s.
Proof. induction s; constructor; assumption. Qed.

Lemma subseq_app_r (a c : string) : is_subsequence a (a ++ c).
Proof. induction a; simpl; constructor; assumption. Qed.

Lemma subseq_app_skip (b a n : string) :
  is_subsequence a n -> is_subsequence a (b ++ n).
Proof. intros H. induction b; simpl; [exact H | now constructor]. Qed.

Lemma substring_subseq (a n : string) :
  is_substring a n -> is_subsequence a n.
Proof.
  intros (b & c & ->). apply subseq_app_skip, subseq_app_r.
Qed.

Lemma subseq_trans (a b c : string) :
  is_subsequence a b -> is_subsequence b c -> is_subsequence a c.
Proof.
  intros Hab Hbc. revert a Hab.
  induction Hbc as [n | x b c _ IH | x b c _ IH]; intros a Hab.
  - apply subseq_of_empty in Hab. subst. constructor.
  - inversion Hab; subst.
    + constructor.
    + apply subseq_take. now apply IH.
    + apply subseq_skip. now apply IH.
  - apply subseq_skip. now apply IH.
Qed.

Lemma subseq_length (a b : string) :
  is_subsequence a b -> String.length a <= String.length b.
Proof. induction 1; simpl; lia. Qed.

Lemma subseq_full (a b : string) :
  is_subsequence a b -> String.length b <= String.length a -> a = b.
Proof.
  induction 1 as [n | x a b _ IH | x a b H _]; simpl; intros L.
  - destruct n; [reflexivity | simpl in L; lia].
  - f_equal. apply IH. lia.
  - apply subseq_length in H. lia.
Qed.

Lemma subseq_app_parts (a b n : string) :
  is_subsequence (a ++ b) n -> is_subsequence a n /\ is_subsequence b n.
Proof.
  intros H. split.
  - apply subseq_trans with (a ++ b); [apply subseq_app_r | exact H].
  - apply subseq_trans with (a ++ b); [|exact H].
    apply subseq_app_skip, subseq_refl.
Qed.

Lemma filter_function_subseq (lower : string -> string) (q n : string) :
  filter_function lower q n = true <-> is_subsequence (lower q) (lower n).
Proof.
  unfold filter_function.
  destruct (String.eqb_spec (lower q) "") as [E|E].
  - split; [|reflexivity]. intros _. rewrite E. constructor.
  - destruct (str_in (lower q) (lower n)) eqn:I.
    + split; [|reflexivity]. intros _.
      now apply substring_subseq, str_in_spec.
    + rewrite Nat.eqb_eq. apply fuzzy_scan_spec. lia.
Qed.

Lemma ascii_lower_app (a b : string) :
  ascii_lower (a ++ b) = ascii_lower a ++ ascii_lower b.
Proof. induction a as [|c a IH]; simpl; [reflexivity | now rewrite IH]. Qed.

(** X1. The direct-match branch never changes the answer: [filter_function]
    accepts a name exactly when the lower-cased query is a subsequence of
    the lower-cased name, whatever [lower] is. *)
Theorem filter_function_is_subsequence (lower : string -> string) (q n : string) :
  (filter_function lower q n = true <-> is_subsequence (lower q) (lower n))
  /\ (str_in (lower q) (lower n) = true ->
      fuzzy_scan (lower q) 0 (lower n) = String.length (lower q)).
Proof.
  split; [apply filter_function_subseq|].
  intros I. apply fuzzy_scan_spec; [lia|].
  now apply substring_subseq, str_in_spec.
Qed.

(** X2. When lower-casing goes through concatenation, a query that matches
    still matches after characters are dropped from its end or its start:
    typing on can only narrow what is accepted. *)
Theorem filter_function_shorter_query (lower : string -> string) (q r n : string) :
  (forall a b, lower (a ++ b) = lower a ++ lower b) ->
  filter_function lower (q ++ r) n = true ->
  filter_function lower q n = true /\ filter_function lower r n = true.
Proof.
  intros Happ H. apply filter_function_subseq in H. rewrite Happ in H.
  apply subseq_app_parts in H as [Hq Hr].
  split; now apply filter_function_subseq.
Qed.

(** X3. When lower-casing goes through concatenation, a query that matches
    a name matches every name that contains it, such as the same file
    below a sub-directory or with an extension added. *)
Theorem filter_function_longer_name (lower : string -> string) (q n before after : string) :
  (forall a b, lower (a ++ b) = lower a ++ lower b) ->
  filter_function lower q n = true ->
  filter_function lower q (before ++ n ++ after) = true.
Proof.
  intros Happ H. apply filter_function_subseq in H.
  apply filter_function_subseq. rewrite !Happ.
  apply subseq_app_skip. apply subseq_trans with (lower n); [exact H|].
  apply subseq_app_r.
Qed.

(** X4. A match bounds the query by the name: the lower-cased query is no
    longer than the lower-cased name, and when it is as long the two are
    equal. *)
Theorem filter_function_length (lower : string -> string) (q n : string) :
  filter_function lower q n = true ->
  String.length (lower q) <= String.length (lower n)
  /\ (String.length (lower n) <= String.length (lower q) -> lower q = lower n).
Proof.
  intros H. apply filter_function_subseq in H. split.
  - now apply subseq_length.
  - now apply subseq_full.
Qed.

(** X5. Matching is a preorder on strings: every name matches itself as a
    query, matches chain, and two strings that match each other are equal
    once lower-cased. *)
Theorem filter_function_preorder (lower : string -> string) (a b c : string) :
  filter_function lower a a = true
  /\ (filter_function lower a b = true -> filter_function lower b c = true ->
      filter_function lower a c = true)
  /\ (filter_function lower a b = true -> filter_function lower b a = true ->
      lower a = lower b).
Proof.
  split; [apply filter_function_subseq, subseq_refl|]. split.
  - intros H1 H2. apply filter_function_subseq in H1, H2.
    apply filter_function_subseq. now apply subseq_trans with (lower b).
  - intros H1 H2. apply filter_function_subseq in H1, H2.
    apply subseq_full; [exact H1 | now apply subseq_length].
Qed.

Lemma while_loop_eq (fuel : nat) (s n : string) (i j : nat) :
  while_loop fuel s n i j =
  if ((i <? String.length s) && (j <? String.length n))%nat then
    match fuel with
    | 0 => OutOfFuel
    | S fuel' =>
        match String.get i s, String.get j n with
        | Some a, Some b =>
            while_loop fuel' s n (if Ascii.eqb a b then i + 1 else i) (j + 1)
        | _, _ => IndexError
        end
    end
  else Done i j.
Proof. destruct fuel; reflexivity. Qed.

Lemma fuzzy_scan_past_end (s rest : string) (i : nat) :
  String.length s <= i -> fuzzy_scan s i rest = i.
Proof.
  intros H. destruct rest as [|c rest]; simpl; [reflexivity|].
  destruct (Nat.ltb_spec i (String.length s)); [lia | reflexivity].
Qed.

(** X6. The [while] loop with its two indices and checked indexing never
    raises [IndexError] and is done within [len(snippet_name) - j]
    iterations: from [i], [j] it ends in [Done] with the index the scan
    [fuzzy_scan] computes on [snippet_name[j:]], which lies between [i] and
    the length of the query (or is [i] itself when [i] is beyond), and with
    [j] still within the name. *)
Theorem while_loop_in_range (fuel : nat) (s n : string) (i j : nat) :
  String.length n - j <= fuel ->
  exists j',
    while_loop fuel s n i j = Done (fuzzy_scan s i (str_drop j n)) j'
    /\ j <= j' /\ j' <= Nat.max j (String.length n)
    /\ i <= fuzzy_scan s i (str_drop j n)
    /\ fuzzy_scan s i (str_drop j n) <= Nat.max i (String.length s).
Proof.
  revert i j; induction fuel as [|fuel IH]; intros i j F;
    rewrite while_loop_eq.
  - destruct (Nat.ltb_spec j (String.length n)) as [Lj|Lj]; [lia|].
    rewrite andb_false_r, str_drop_all by lia. exists j. simpl.
    repeat split; lia.
  - destruct (Nat.ltb_spec i (String.length s)) as [Li|Li];
      [destruct (Nat.ltb_spec j (String.length n)) as [Lj|Lj]|]; cbn [andb].
    + destruct (str_drop_get s i Li) as (a & Ga & _).
      destruct (str_drop_get n j Lj) as (b & Gb & Db).
      rewrite Ga, Gb, Db. cbn [fuzzy_scan].
      destruct (Nat.ltb_spec i (String.length s)) as [_|]; [|lia].
      rewrite Ga. cbn [option_ascii_eqb].
      replace (j + 1) with (S j) by lia.
      destruct (IH (if Ascii.eqb a b then i + 1 else i) (S j))
        as (j' & E & B1 & B2 & B3 & B4); [lia|].
      exists j'. split; [exact E|].
      destruct (Ascii.eqb a b); repeat split; lia.
    + rewrite str_drop_all by lia. exists j. simpl. repeat split; lia.
    + rewrite fuzzy_scan_past_end by lia. exists j. repeat split; lia.
Qed.

(** ** More on the candidate store *)

Lemma files_below_prefix (d : fsnode) :
  forall rel p, In p (files_below rel d) -> exists q, p = (rel ++ q)%list.
Proof.
  induction d as [n | n entries IH] using fsnode_tree_ind; intros rel p H.
  - destruct H.
  - cbn [files_below] in H. apply in_flat_map in H as (e & He & Hp).
    rewrite Forall_forall in IH. destruct e as [m | m sub].
    + destruct Hp as [<- | []]. now exists [m].
    + apply (IH _ He) in Hp as (q & ->). exists (m :: q).
      unfold path_join. now rewrite <- app_assoc.
Qed.

Lemma entry_files_start (rel : path) (e : fsnode) (p : path) :
  In p (match e with
        | File n => [path_join rel n]
        | Dir n _ => files_below (path_join rel n) e
        end) ->
  exists q, p = (rel ++ entry_name e :: q)%list.
Proof.
  destruct e as [m | m sub]; intros H.
  - destruct H as [<- | []]. now exists [].
  - apply files_below_prefix in H as (q & ->). exists q.
    unfold path_join. now rewrite <- app_assoc.
Qed.

Lemma files_below_nodup (d : fsnode) :
  unique_names d -> forall rel, NoDup (files_below rel d).
Proof.
  induction d as [n | n entries IH] using fsnode_tree_ind; intros U rel.
  - constructor.
  - cbn [files_below]. inversion U as [|? ? Hn Hu]; subst.
    induction entries as [|e entries IHes]; [constructor|].
    cbn [flat_map]. simpl in Hn.
    apply NoDup_cons_iff in Hn as [Hfresh Hn].
    apply Forall_cons_iff in Hu as [Ue Hu].
    apply Forall_cons_iff in IH as [IHe IH].
    apply NoDup_app.
    + destruct e as [m | m sub]; [repeat constructor; intros []|].
      now apply IHe.
    + apply IHes; try assumption. now constructor.
    + intros p Hp Hq. apply entry_files_start in Hp as (q & ->).
      apply in_flat_map in Hq as (e' & He' & Hq).
      apply entry_files_start in Hq as (q' & E).
      apply app_inv_head in E. injection E as E _.
      apply Hfresh. rewrite E. now apply in_map.
Qed.

(** X7. The number of rows loaded, which is the number the status bar
    reports as ["Loaded N snippets"], is the number of files in the tree. *)
Theorem load_snippets_count (top : path) (tree : fsnode) :
  List.length (fst (load_snippets top tree))
  = List.length (files_below [] tree)
  /\ snd (load_snippets top tree)
     = StatusPush ("Loaded " ++ str_of_nat (List.length (files_below [] tree))
                   ++ " snippets").
Proof.
  destruct (load_snippets_rows top tree) as [R S].
  assert (L : List.length (fst (load_snippets top tree))
              = List.length (files_below [] tree)).
  { rewrite R, length_map. apply Permutation_length, load_order_files. }
  split; [exact L|]. now rewrite S, L.
Qed.

(** X8. When no directory lists a name twice, no file is loaded twice: the
    rows are those of pairwise distinct paths, which are exactly the paths
    of the files of the tree. *)
Theorem load_snippets_no_duplicates (top : path) (tree : fsnode) :
  unique_names tree ->
  exists paths,
    fst (load_snippets top tree) = map (row_of top) paths
    /\ NoDup paths
    /\ forall p, In p paths <-> In p (files_below [] tree).
Proof.
  intros U. exists (load_order [] tree).
  split; [apply load_snippets_rows|]. split.
  - apply Permutation_NoDup with (files_below [] tree).
    + symmetry. apply load_order_files.
    + now apply files_below_nodup.
  - intros p. split; apply Permutation_in;
      [|symmetry]; apply load_order_files.
Qed.

(** ** More on the filter view *)

Lemma visible_rows_length (lower : string -> string) (text : string)
    (store : list Candidate) :
  List.length (visible_rows lower text store) <= List.length store.
Proof.
  unfold visible_rows. rewrite length_map.
  etransitivity; [apply filter_length_le|].
  rewrite length_combine, length_seq. lia.
Qed.

Lemma handle_keeps_store (lower : string -> string) (w : World)
    (ev : event) (s : State) :
  list_store (fst (handle lower w ev s)) = list_store s.
Proof.
  destruct ev as [q | | | k | [|] | pos | | ]; cbn [handle fst]; try reflexivity.
  - now destruct (on_search_changed_view lower (with_text q s)) as (L & _).
  - now destruct (String.eqb k "Escape").
  - now destruct (nth_error (filter_store s) pos).
Qed.

Lemma handle_view_consistent (lower : string -> string) (w : World)
    (ev : event) (s : State) :
  view_consistent lower s -> view_consistent lower (fst (handle lower w ev s)).
Proof.
  intros H. destruct ev as [q | | | k | [|] | pos | | ]; cbn [handle fst];
    try exact H.
  - destruct (on_search_changed_view lower (with_text q s)) as (L & T & _ & F & C).
    split; [now rewrite F, L, T|]. rewrite C.
    destruct (filter_store (fst (on_search_changed lower (with_text q s))));
      simpl; auto.
  - now destruct (String.eqb k "Escape").
  - destruct (nth_error (filter_store s) pos) as [row|] eqn:N; [|exact H].
    destruct H as [F _]. split; [exact F|].
    cbn. rewrite N. now apply nth_error_In with pos.
  - destruct H as [F _]. split; [exact F | exact I].
Qed.

Lemma no_match_effects (lower : string -> string) (s : State) :
  visible_rows lower (search_entry s) (list_store s) = [] ->
  on_search_changed lower s =
  (refilter lower s,
   if negb (String.eqb (search_entry s) "")
   then [StatusPush "No matching snippets found"] else []).
Proof. intros H. unfold on_search_changed. cbn. now rewrite H. Qed.

Lemma run_view_consistent (lower : string -> string) (w : World)
    (evs : list event) :
  forall s, view_consistent lower s ->
            view_consistent lower (fst (run lower w evs s)).
Proof.
  induction evs as [|ev evs IH]; intros s H; [exact H|].
  rewrite run_cons_state. apply IH. now apply handle_view_consistent.
Qed.

Lemma init_view_consistent (lower : string -> string) (top : path) (tree : fsnode) :
  view_consistent lower (fst (init lower top tree)).
Proof.
  unfold init. destruct (load_snippets top tree) as [store loaded].
  split; [reflexivity | exact I].
Qed.

(** C3 (as amended). A query change, in whatever state, puts the cursor on
    the first row of the new view, a row that names a loaded candidate, and
    leaves no cursor when the new view is empty.  In every state the window
    reaches from start-up, by whatever events, among them the user moving
    or dropping the selection, a cursor that is set is on a row of the view
    and names a loaded candidate.  The cursor can be unset while rows are
    shown: at start-up every loaded candidate is shown, as many as the tree
    has files, and none is selected; and the user taking the selection off
    leaves the view as it is. *)
Theorem cursor_after_query_change (lower : string -> string) (w : World)
    (top : path) (tree : fsnode) (evs : list event) (q : string) (st : State) :
  lower "" = "" ->
  let s0 := fst (init lower top tree) in
  let s := fst (run lower w evs s0) in
  let s' := fst (handle lower w (SearchChanged q) st) in
  (selection s' = hd_error (filter_store s')
   /\ (filter_store s' = [] -> selection s' = None)
   /\ (filter_store s' <> [] ->
       exists row c, hd_error (filter_store s') = Some row
                     /\ selection s' = Some row
                     /\ In row (filter_store s')
                     /\ get_selected s' = Some c))
  /\ (forall row, selection s = Some row ->
                  In row (filter_store s) /\ exists c, get_selected s = Some c)
  /\ (selection s0 = None
      /\ filter_store s0 = seq 0 (List.length (list_store s0))
      /\ List.length (list_store s0) = List.length (files_below [] tree))
  /\ (selection (fst (handle lower w Unselected s)) = None
      /\ filter_store (fst (handle lower w Unselected s)) = filter_store s).
Proof.
  intros lower_empty s0 s s'. split; [|split; [|split]].
  - subst s'. cbn [handle].
    destruct (on_search_changed_view lower (with_text q st)) as (L & T & _ & F & C).
    split; [exact C|]. split; [intros E; now rewrite C, E|].
    intros NE.
    destruct (filter_store (fst (on_search_changed lower (with_text q st))))
      as [|row rows] eqn:E; [now elim NE|].
    assert (I : In row (visible_rows lower (search_entry (with_text q st))
                          (list_store (with_text q st)))).
    { rewrite <- F. now left. }
    apply in_visible_rows in I as (c & Hc & _).
    exists row, c. repeat split; try assumption; [now left|].
    unfold get_selected. rewrite C. cbn [hd_error]. now rewrite L.
  - assert (V : view_consistent lower s).
    { apply run_view_consistent, init_view_consistent. }
    intros row E. destruct V as [F S]. rewrite E in S. split; [exact S|].
    rewrite F in S. apply in_visible_rows in S as (c & Hc & _).
    exists c. unfold get_selected. now rewrite E.
  - subst s0. unfold init.
    pose proof (load_snippets_rows top tree) as [R _].
    pose proof (load_order_files tree []) as P.
    destruct (load_snippets top tree) as [store loaded]. cbn [fst] in *.
    split; [reflexivity|]. split.
    + now apply visible_rows_empty_query.
    + cbn [list_store]. rewrite R, length_map. now apply Permutation_length.
  - split; reflexivity.
Qed.

(** X9. No event changes the list store: the candidates stay as loaded for
    the whole session, whatever is typed, confirmed or timed out. *)
Theorem run_keeps_store (lower : string -> string) (w : World)
    (evs : list event) (s : State) :
  list_store (fst (run lower w evs s)) = list_store s.
Proof.
  revert s; induction evs as [|ev evs IH]; intros s; [reflexivity|].
  rewrite run_cons_state, IH. apply handle_keeps_store.
Qed.

(** X10. In every state the window reaches from start-up the view shows
    exactly what the filter accepts for the text in the entry; the rows
    shown are rows of the list store, no more of them than were loaded; and
    a selected row is one of the rows shown, so that it names a candidate. *)
Theorem reachable_view_consistent (lower : string -> string) (w : World)
    (top : path) (tree : fsnode) (evs : list event) :
  let s := fst (run lower w evs (fst (init lower top tree))) in
  view_consistent lower s
  /\ (forall i, In i (filter_store s) -> i < List.length (list_store s))
  /\ List.length (filter_store s) <= List.length (list_store s)
  /\ (forall row, selection s = Some row -> exists c, get_selected s = Some c).
Proof.
  intros s.
  assert (V : view_consistent lower s).
  { apply run_view_consistent, init_view_consistent. }
  assert (R : forall i, In i (filter_store s) -> i < List.length (list_store s)).
  { intros i Hi. destruct V as [F _]. rewrite F in Hi.
    apply in_visible_rows in Hi as (c & Hc & _).
    apply nth_error_Some. congruence. }
  split; [exact V|]. split; [exact R|]. split.
  - destruct V as [F _]. rewrite F. apply visible_rows_length.
  - intros row E. destruct V as [_ S]. rewrite E in S. apply R in S.
    unfold get_selected. rewrite E.
    destruct (nth_error (list_store s) row) as [c|] eqn:N; [now exists c|].
    apply nth_error_None in N. lia.
Qed.

(** X11. When lower-casing goes through concatenation, typing on narrows
    the view: the rows shown for a longer text are among those shown for
    the text it extends. *)
Theorem view_narrows (lower : string -> string) (w : World)
    (q r : string) (s : State) :
  (forall a b, lower (a ++ b) = lower a ++ lower b) ->
  incl (filter_store (fst (handle lower w (SearchChanged (q ++ r)) s)))
       (filter_store (fst (handle lower w (SearchChanged q) s))).
Proof.
  intros Happ. cbn [handle].
  destruct (on_search_changed_view lower (with_text (q ++ r) s)) as (_ & _ & _ & F1 & _).
  destruct (on_search_changed_view lower (with_text q s)) as (_ & _ & _ & F2 & _).
  rewrite F1, F2. cbn [with_text search_entry list_store].
  intros i Hi. apply in_visible_rows in Hi as (c & Hc & M).
  apply in_visible_rows. exists c. split; [exact Hc|].
  apply filter_function_subseq in M. rewrite Happ in M.
  apply subseq_app_parts in M as [M _]. now apply filter_function_subseq.
Qed.

(** X12. A query change that leaves nothing to show leaves nothing
    selected: a confirmation right after it does nothing, there is no row
    for the user to put the cursor on, and for a non-empty text the status
    pushed last is ["No matching snippets found"]. *)
Theorem no_match_then_confirm (lower : string -> string) (w : World)
    (q : string) (s : State) :
  filter_store (fst (handle lower w (SearchChanged q) s)) = [] ->
  let s' := fst (handle lower w (SearchChanged q) s) in
  selection s' = None
  /\ handle lower w Activate s' = (s', [])
  /\ handle lower w RowActivated s' = (s', [])
  /\ (forall pos, handle lower w (CursorMoved pos) s' = (s', []))
  /\ (String.eqb q "" = false ->
      last (snd (handle lower w (SearchChanged q) s)) MainQuit
      = StatusPush "No matching snippets found").
Proof.
  cbn [handle]. intros E.
  destruct (on_search_changed_view lower (with_text q s)) as (_ & _ & _ & F & C).
  assert (N : selection (fst (on_search_changed lower (with_text q s))) = None).
  { now rewrite C, E. }
  assert (A : copy_selected_snippet w (fst (on_search_changed lower (with_text q s)))
              = []).
  { unfold copy_selected_snippet, get_selected. now rewrite N. }
  split; [exact N|]. rewrite A. split; [reflexivity|]. split; [reflexivity|].
  split.
  - intros pos. rewrite E. now destruct pos.
  - intros Q. rewrite no_match_effects by (now rewrite <- F).
    cbn. now rewrite Q.
Qed.

(** X13. A confirmation right after a query change that shows something
    opens the file of the first candidate, in load order, that the filter
    accepts for the query. *)
Theorem confirm_opens_first_match (lower : string -> string) (w : World)
    (q : string) (s : State) (row : nat) (rest : list nat) :
  filter_store (fst (handle lower w (SearchChanged q) s)) = row :: rest ->
  exists c,
    nth_error (list_store s) row = Some c
    /\ filter_function lower q (displayName c) = true
    /\ (forall j c', j < row -> nth_error (list_store s) j = Some c' ->
                     filter_function lower q (displayName c') = false)
    /\ hd_error (copy_selected_snippet w (fst (handle lower w (SearchChanged q) s)))
       = Some (OpenRead (fullPath c)).
Proof.
  cbn [handle]. intros E.
  destruct (on_search_changed_view lower (with_text q s)) as (L & _ & _ & F & C).
  cbn [with_text search_entry list_store] in F.
  assert (I : In row (visible_rows lower q (list_store s))).
  { rewrite <- F, E. now left. }
  apply in_visible_rows in I as (c & Hc & M).
  exists c. split; [exact Hc|]. split; [exact M|]. split.
  - intros j c' Hj Hc'.
    destruct (filter_function lower q (displayName c')) eqn:M'; [|reflexivity].
    assert (J : In j (visible_rows lower q (list_store s))).
    { apply in_visible_rows. now exists c'. }
    rewrite <- F, E in J. destruct J as [J | J]; [lia|].
    pose proof (visible_rows_sorted lower q (list_store s)) as S.
    rewrite <- F, E in S. apply StronglySorted_inv in S as [_ S].
    rewrite Forall_forall in S. apply S in J. lia.
  - rewrite (copy_selected_snippet_table w _ c); [reflexivity|].
    unfold get_selected. rewrite C, E, L. exact Hc.
Qed.

(** ** More on the selection controller *)

Ltac settle_io :=
  settle_copy;
  try solve [ left; congruence
            | right; left; congruence
            | right; right; congruence
            | simpl in *; lia ].

Lemma copy_once (w : World) (s : State) (row : Candidate) :
  get_selected s = Some row ->
  scheduled_closes (copy_selected_snippet w s) = [600]
  /\ opened (copy_selected_snippet w s) = [fullPath row].
Proof.
  intros H. rewrite (copy_selected_snippet_table w s row H).
  copy_cases w row; cbn; settle_copy.
Qed.

Lemma handle_destroyed (lower : string -> string) (w : World)
    (ev : event) (s : State) :
  destroyed (fst (handle lower w ev s)) = destroyed s || is_closing ev.
Proof.
  destruct ev as [q | | | k | [|] | pos | | ]; cbn [handle fst is_closing];
    rewrite ?orb_false_r, ?orb_true_r; try reflexivity.
  - now destruct (on_search_changed_view lower (with_text q s)) as (_ & _ & D & _).
  - destruct (String.eqb k "Escape"); cbn;
      rewrite ?orb_false_r, ?orb_true_r; reflexivity.
  - now destruct (nth_error (filter_store s) pos).
Qed.

(** X14. A confirmation with a row under the cursor opens one file, the
    one of that row; it spawns nothing when the read fails and otherwise
    [wl-copy], or [wl-copy] and then [xclip]; what it feeds to a provider is
    the text read, unchanged, to one provider at most, and to exactly one
    when the copy counts as done. *)
Theorem copy_io_discipline (w : World) (s : State) (row : Candidate) :
  get_selected s = Some row ->
  let out := copy_selected_snippet w s in
  opened out = [fullPath row]
  /\ (forall e, file_content w (fullPath row) = inl e ->
                spawned out = [] /\ fed out = [])
  /\ (forall content, file_content w (fullPath row) = inr content ->
        (spawned out = [wl_copy] \/ spawned out = [wl_copy; xclip])
        /\ (fed out = [] \/ fed out = [(wl_copy, content)]
            \/ fed out = [(xclip, content)]))
  /\ (copy_succeeded w (fullPath row) = true <-> List.length (fed out) = 1).
Proof.
  intros H out. subst out. rewrite (copy_selected_snippet_table w s row H).
  copy_cases w row; cbn; settle_io.
Qed.

(** X15. After a confirmation with a row under the cursor, once the timers
    it has set fire in the order of their delays, the window is destroyed:
    after a copy that went through the highlight is dropped first and the
    main loop is left then, and otherwise the main loop is left at once. *)
Theorem confirmation_ends_closed (lower : string -> string) (w : World)
    (s : State) (row : Candidate) :
  get_selected s = Some row ->
  let out := copy_selected_snippet w s in
  let after := run lower w (timer_events out) s in
  timer_events out
  = (if copy_succeeded w (fullPath row)
     then [TimerFired RemoveStyle; TimerFired Destroy]
     else [TimerFired Destroy])
  /\ destroyed (fst after) = true
  /\ snd after
     = (if copy_succeeded w (fullPath row)
        then [DropStyle; QueueDraw; MainQuit]
        else [MainQuit]).
Proof.
  intros H out after. subst after out.
  rewrite (copy_selected_snippet_table w s row H).
  copy_cases w row; cbn; repeat split; reflexivity.
Qed.

(** X16. The window is destroyed by the Escape key and by the close timer
    and by nothing else, and it stays destroyed: after any events it is
    destroyed exactly when it was before or one of them was Escape or the
    close timer. *)
Theorem destroyed_exactly_by (lower : string -> string) (w : World)
    (evs : list event) (s : State) :
  destroyed (fst (run lower w evs s)) = destroyed s || existsb is_closing evs.
Proof.
  revert s; induction evs as [|ev evs IH]; intros s.
  - cbn. now rewrite orb_false_r.
  - rewrite run_cons_state, IH, handle_destroyed. cbn [existsb].
    now rewrite orb_assoc.
Qed.

(** X17. Nothing guards against confirming again before the window
    closes: [k] confirmations with the same row under the cursor leave the
    state as it is and repeat the whole copy [k] times, opening the file
    [k] times and scheduling [k] closes. *)
Theorem repeated_confirmation (lower : string -> string) (w : World)
    (s : State) (row : Candidate) (k : nat) :
  get_selected s = Some row ->
  let after := run lower w (repeat Activate k) s in
  fst after = s
  /\ snd after = List.concat (repeat (copy_selected_snippet w s) k)
  /\ scheduled_closes (snd after) = repeat 600 k
  /\ opened (snd after) = repeat (fullPath row) k.
Proof.
  intros H. destruct (copy_once w s row H) as [C O].
  induction k as [|k IH]; [repeat split; reflexivity|].
  destruct IH as (A & B & D & E).
  cbn [repeat run handle List.concat]. cbn zeta.
  destruct (run lower w (repeat Activate k) s) as [s2 out2].
  cbn [fst snd] in *. subst s2 out2.
  unfold scheduled_closes, opened in *. rewrite !flat_map_app.
  repeat split; [now rewrite C, D | now rewrite O, E].
Qed.

(** X18. A snippets directory without a single file gives a session that
    never touches the outside: the status is ["Loaded 0 snippets"], and
    whatever events follow nothing is shown or selected, no file is opened,
    no command spawned and no timer set. *)
Theorem empty_store_session (lower : string -> string) (w : World)
    (top : path) (tree : fsnode) (evs : list event) :
  files_below [] tree = [] ->
  let after := run lower w evs (fst (init lower top tree)) in
  snd (init lower top tree) = [StatusPush "Loaded 0 snippets"]
  /\ list_store (fst after) = []
  /\ filter_store (fst after) = []
  /\ selection (fst after) = None
  /\ opened (snd after) = []
  /\ spawned (snd after) = []
  /\ scheduled (snd after) = [].
Proof.
  intros E after.
  destruct (load_snippets_rows top tree) as [R S].
  assert (N : fst (load_snippets top tree) = []).
  { rewrite R. pose proof (load_order_files tree []) as P. rewrite E in P.
    apply Permutation_sym, Permutation_nil in P. now rewrite P. }
  rewrite N in S. subst after. unfold init.
  destruct (load_snippets top tree) as [store loaded]. cbn [fst snd] in *.
  clear R. subst store loaded. split; [reflexivity|].
  change (visible_rows lower "" []) with (@nil nat).
  assert (G : forall s, list_store s = [] -> filter_store s = [] ->
                        selection s = None ->
              list_store (fst (run lower w evs s)) = []
              /\ filter_store (fst (run lower w evs s)) = []
              /\ selection (fst (run lower w evs s)) = None
              /\ opened (snd (run lower w evs s)) = []
              /\ spawned (snd (run lower w evs s)) = []
              /\ scheduled (snd (run lower w evs s)) = []).
  { induction evs as [|ev evs IH]; intros s L F C; [now repeat split|].
    cbn [run].
    assert (Hh : list_store (fst (handle lower w ev s)) = []
                 /\ filter_store (fst (handle lower w ev s)) = []
                 /\ selection (fst (handle lower w ev s)) = None
                 /\ opened (snd (handle lower w ev s)) = []
                 /\ spawned (snd (handle lower w ev s)) = []
                 /\ scheduled (snd (handle lower w ev s)) = []).
    { destruct ev as [q | | | key | [|] | pos | | ]; cbn [handle fst snd].
      - rewrite no_match_effects
          by (cbn [with_text search_entry list_store]; now rewrite L).
        cbn. rewrite L, C. cbn.
        repeat split; now destruct (String.eqb q "").
      - unfold copy_selected_snippet, get_selected. rewrite C. now repeat split.
      - unfold copy_selected_snippet, get_selected. rewrite C. now repeat split.
      - destruct (String.eqb key "Escape"); now repeat split.
      - now repeat split.
      - now repeat split.
      - rewrite F. destruct pos; now repeat split.
      - unfold on_selection_changed, get_selected. cbn. now repeat split.
      - now repeat split. }
    destruct (handle lower w ev s) as [s1 out1]. cbn [fst snd] in Hh.
    destruct Hh as (L1 & F1 & C1 & O1 & P1 & T1).
    specialize (IH s1 L1 F1 C1).
    destruct (run lower w evs s1) as [s2 out2]. cbn [fst snd] in *.
    destruct IH as (L2 & F2 & C2 & O2 & P2 & T2).
    unfold opened, spawned, scheduled in *. rewrite !flat_map_app.
    repeat split; try assumption.
    - now rewrite O1, O2.
    - now rewrite P1, P2.
    - now rewrite T1, T2. }
  apply G; reflexivity.
Qed.

(** ** Worked instances of the further properties *)

Lemma unique_names_scenario_A : unique_names scenario_A.
Proof.
  repeat (constructor; simpl); intuition discriminate.
Defined.

Lemma filter_function_shorter_query_witness :
  (forall a b, ascii_lower (a ++ b) = ascii_lower a ++ ascii_lower b)
  /\ filter_function ascii_lower ("no" ++ "td") "Notes/Todo.txt" = true
  /\ filter_function ascii_lower "no" "Notes/Todo.txt" = true
  /\ filter_function ascii_lower "td" "Notes/Todo.txt" = true.
Proof.
  split; [exact ascii_lower_app|]. split; [reflexivity|].
  exact (filter_function_shorter_query ascii_lower "no" "td" "Notes/Todo.txt"
           ascii_lower_app eq_refl).
Defined.

Lemma filter_function_longer_name_witness :
  (forall a b, ascii_lower (a ++ b) = ascii_lower a ++ ascii_lower b)
  /\ filter_function ascii_lower "td" "Todo" = true
  /\ filter_function ascii_lower "td" ("notes/" ++ "Todo" ++ ".txt") = true.
Proof.
  split; [exact ascii_lower_app|]. split; [reflexivity|].
  exact (filter_function_longer_name ascii_lower "td" "Todo" "notes/" ".txt"
           ascii_lower_app eq_refl).
Defined.

Lemma filter_function_length_witness :
  filter_function ascii_lower "Y.TXT" "y.txt" = true
  /\ String.length (ascii_lower "Y.TXT") <= String.length (ascii_lower "y.txt")
  /\ (String.length (ascii_lower "y.txt") <= String.length (ascii_lower "Y.TXT") ->
      ascii_lower "Y.TXT" = ascii_lower "y.txt").
Proof.
  split; [reflexivity|].
  exact (filter_function_length ascii_lower "Y.TXT" "y.txt" eq_refl).
Defined.

Lemma while_loop_in_range_witness :
  String.length "y.txt" - 0 <= 5
  /\ while_loop 5 "yt" "y.txt" 0 0 = Done 2 3
  /\ exists j',
       while_loop 5 "yt" "y.txt" 0 0
       = Done (fuzzy_scan "yt" 0 (str_drop 0 "y.txt")) j'
       /\ 0 <= j' /\ j' <= Nat.max 0 (String.length "y.txt")
       /\ 0 <= fuzzy_scan "yt" 0 (str_drop 0 "y.txt")
       /\ fuzzy_scan "yt" 0 (str_drop 0 "y.txt")
          <= Nat.max 0 (String.length "yt").
Proof.
  assert (H : String.length "y.txt" - 0 <= 5) by (simpl; lia).
  split; [exact H|]. split; [reflexivity|].
  exact (while_loop_in_range 5 "yt" "y.txt" 0 0 H).
Defined.

Lemma load_snippets_no_duplicates_witness :
  unique_names scenario_A
  /\ exists paths,
       fst (load_snippets snippets_root scenario_A)
       = map (row_of snippets_root) paths
       /\ NoDup paths
       /\ forall p, In p paths <-> In p (files_below [] scenario_A).
Proof.
  split; [exact unique_names_scenario_A|].
  exact (load_snippets_no_duplicates snippets_root scenario_A
           unique_names_scenario_A).
Defined.

Lemma view_narrows_witness :
  (forall a b, ascii_lower (a ++ b) = ascii_lower a ++ ascii_lower b)
  /\ incl (filter_store (fst (handle ascii_lower world_ok
                                (SearchChanged ("b" ++ "y")) started)))
          (filter_store (fst (handle ascii_lower world_ok
                                (SearchChanged "b") started))).
Proof.
  split; [exact ascii_lower_app|].
  exact (view_narrows ascii_lower world_ok "b" "y" started ascii_lower_app).
Defined.

Lemma no_match_then_confirm_witness :
  filter_store (fst (handle ascii_lower world_ok (SearchChanged "yz") started)) = []
  /\ selection (fst (handle ascii_lower world_ok (SearchChanged "yz") started))
     = None
  /\ last (snd (handle ascii_lower world_ok (SearchChanged "yz") started)) MainQuit
     = StatusPush "No matching snippets found".
Proof.
  split; [reflexivity|]. split; [|reflexivity].
  exact (proj1 (no_match_then_confirm ascii_lower world_ok "yz" started eq_refl)).
Defined.

Lemma confirm_opens_first_match_witness :
  filter_store (fst (handle ascii_lower world_ok (SearchChanged "bt") started))
  = [1; 2]
  /\ exists c,
       nth_error (list_store started) 1 = Some c
       /\ filter_function ascii_lower "bt" (displayName c) = true
       /\ (forall j c', j < 1 -> nth_error (list_store started) j = Some c' ->
                        filter_function ascii_lower "bt" (displayName c') = false)
       /\ hd_error (copy_selected_snippet world_ok
                      (fst (handle ascii_lower world_ok (SearchChanged "bt") started)))
          = Some (OpenRead (fullPath c)).
Proof.
  split; [reflexivity|].
  exact (confirm_opens_first_match ascii_lower world_ok "bt" started 1 [2] eq_refl).
Defined.

Lemma copy_io_discipline_witness :
  get_selected typed_y = Some (mkCandidate "~/snippets/b/y.txt" "b/y.txt")
  /\ opened (copy_selected_snippet world_xclip_only typed_y)
     = ["~/snippets/b/y.txt"]
  /\ fed (copy_selected_snippet world_xclip_only typed_y) = [(xclip, "hello")].
Proof.
  split; [reflexivity|]. split; [|reflexivity].
  exact (proj1 (copy_io_discipline world_xclip_only typed_y
                  (mkCandidate "~/snippets/b/y.txt" "b/y.txt") eq_refl)).
Defined.

Lemma confirmation_ends_closed_witness :
  get_selected typed_y = Some (mkCandidate "~/snippets/b/y.txt" "b/y.txt")
  /\ destroyed typed_y = false
  /\ destroyed (fst (run ascii_lower world_ok
                       (timer_events (copy_selected_snippet world_ok typed_y))
                       typed_y)) = true.
Proof.
  split; [reflexivity|]. split; [reflexivity|].
  exact (proj1 (proj2 (confirmation_ends_closed ascii_lower world_ok typed_y
                         (mkCandidate "~/snippets/b/y.txt" "b/y.txt") eq_refl))).
Defined.

Lemma repeated_confirmation_witness :
  get_selected typed_y = Some (mkCandidate "~/snippets/b/y.txt" "b/y.txt")
  /\ scheduled_closes (snd (run ascii_lower world_ok (repeat Activate 2) typed_y))
     = [600; 600].
Proof.
  split; [reflexivity|].
  exact (proj1 (proj2 (proj2 (repeated_confirmation ascii_lower world_ok typed_y
                         (mkCandidate "~/snippets/b/y.txt" "b/y.txt") 2 eq_refl)))).
Defined.

Lemma empty_store_session_witness :
  files_below [] (Dir "snippets" [Dir "empty" []; Dir "drafts" [Dir "old" []]]) = []
  /\ snd (init ascii_lower snippets_root
            (Dir "snippets" [Dir "empty" []; Dir "drafts" [Dir "old" []]]))
     = [StatusPush "Loaded 0 snippets"]
  /\ opened (snd (run ascii_lower world_ok [SearchChanged "a"; Activate]
                    (fst (init ascii_lower snippets_root
                            (Dir "snippets" [Dir "empty" []; Dir "drafts" [Dir "old" []]])))))
     = [].
Proof.
  split; [reflexivity|]. split; [reflexivity|].
  exact (proj1 (proj2 (proj2 (proj2 (proj2
           (empty_store_session ascii_lower world_ok snippets_root
              (Dir "snippets" [Dir "empty" []; Dir "drafts" [Dir "old" []]])
              [SearchChanged "a"; Activate] eq_refl)))))).
Defined.

Lemma cursor_after_query_change_witness :
  ascii_lower "" = ""
  /\ selection (fst (handle ascii_lower world_ok (SearchChanged "bt") typed_y))
     = Some 1
  /\ (forall row,
        selection (fst (run ascii_lower world_ok
                          [SearchChanged "b"; CursorMoved 1; Activate] started))
        = Some row ->
        In row (filter_store
                  (fst (run ascii_lower world_ok
                          [SearchChanged "b"; CursorMoved 1; Activate] started)))
        /\ exists c,
             get_selected
               (fst (run ascii_lower world_ok
                       [SearchChanged "b"; CursorMoved 1; Activate] started))
             = Some c).
Proof.
  split; [reflexivity|]. split; [reflexivity|].
  exact (proj1 (proj2 (cursor_after_query_change ascii_lower world_ok
                         snippets_root scenario_A
                         [SearchChanged "b"; CursorMoved 1; Activate]
                         "bt" typed_y eq_refl))).
Defined.
